(** * AI healthcare assistant: assessment / response pipeline

    A shallow embedding of the server core of the repository:
    - [middleware/auth.js]   : [userActionLimiter]
    - [services/aiService.js]: [analyzeSymptoms], [chatResponse],
      [parseFallbackResponse], [ruleBasedAssessment], [validateResponse]
    - [models/Chat.js]       : [addMessage], [updateContext]
    - [routes/symptoms.js]   : the [POST /:sessionId/message] handler of
      its chat router and [updateChatInsights]

    Conventions of the embedding.
    - JavaScript strings are [string]s (sequences of bytes).  [toLowerCase]
      folds the ASCII letters; other bytes pass through unchanged.
    - JavaScript numbers that the code computes are small integers and are
      kept in [Z]; numbers read from JSON text are kept as exact decimals.
    - An exception is a value of the model ([Throws], [None]); every
      [try]/[catch] of the source is a [match] on it.
    - The external model provider is an oracle from requests to outcomes;
      the requests made are recorded in a log threaded through the calls. *)

From Stdlib Require Import ZArith Ascii String Bool Lia.
From stdpp Require Import base option list gmap strings pretty.

Local Open Scope Z_scope.

(** ** JavaScript string primitives used by the code *)

Module JS.

(** The double quote character, for JSON text. *)
Definition dq : string := String (ascii_of_nat 34) EmptyString.

(** New line, as produced by [\n] in a template literal. *)
Definition nl : string := String (ascii_of_nat 10) EmptyString.

Definition lower_ascii (c : ascii) : ascii :=
  let n := N_of_ascii c in
  if ((65 <=? n) && (n <=? 90))%N then ascii_of_N (n + 32) else c.

(** [s.toLowerCase()] *)
Fixpoint toLowerCase (s : string) : string :=
  match s with
  | EmptyString => EmptyString
  | String c s' => String (lower_ascii c) (toLowerCase s')
  end.

(** [s.startsWith(p)] *)
Fixpoint startsWith (s p : string) : bool :=
  match p, s with
  | EmptyString, _ => true
  | String a p', String b s' => if Ascii.eqb a b then startsWith s' p' else false
  | String _ _, EmptyString => false
  end.

(** [s.includes(kw)]: [kw] occurs in [s] as a contiguous substring. *)
Fixpoint includes (s kw : string) : bool :=
  startsWith s kw ||
  match s with
  | EmptyString => false
  | String _ s' => includes s' kw
  end.

(** [phrase] occurs in [s] up to the case of the letters. *)
Definition containsIgnoringCase (s phrase : string) : Prop :=
  ∃ pre mid post,
    s = pre +:+ mid +:+ post ∧ toLowerCase mid = toLowerCase phrase.

(** [arr.some(k => s.includes(k))] *)
Definition includesAny (s : string) (kws : list string) : bool :=
  existsb (includes s) kws.

(** [names.includes(m)] on an array of strings: membership by equality. *)
Definition arrayIncludes (names : list string) (m : string) : bool :=
  existsb (String.eqb m) names.

(** [s.indexOf(c)] for a one-character needle; [-1] when absent. *)
Fixpoint indexOf (s : string) (c : ascii) : Z :=
  match s with
  | EmptyString => -1
  | String a s' =>
      if Ascii.eqb a c then 0
      else let i := indexOf s' c in if i =? -1 then -1 else i + 1
  end.

(** [s.lastIndexOf(c)] for a one-character needle; [-1] when absent. *)
Fixpoint lastIndexOf (s : string) (c : ascii) : Z :=
  match s with
  | EmptyString => -1
  | String a s' =>
      let i := lastIndexOf s' c in
      if i =? -1 then (if Ascii.eqb a c then 0 else -1) else i + 1
  end.

Definition strlen (s : string) : Z := Z.of_nat (String.length s).

(** [s.slice(a, b)], with JavaScript's treatment of negative and
    out-of-range indices. *)
Definition slice (s : string) (a b : Z) : string :=
  let len := strlen s in
  let from := if a <? 0 then Z.max (len + a) 0 else Z.min a len in
  let to := if b <? 0 then Z.max (len + b) 0 else Z.min b len in
  substring (Z.to_nat from) (Z.to_nat (Z.max (to - from) 0)) s.

(** [arr.slice(-n)]: the last [n] elements. *)
Definition lastN {A} (n : nat) (l : list A) : list A :=
  drop (length l - n) l.

(** [arr.join(sep)] *)
Fixpoint join (sep : string) (l : list string) : string :=
  match l with
  | [] => EmptyString
  | [x] => x
  | x :: rest => x +:+ sep +:+ join sep rest
  end.

End JS.

(** ** [middleware/auth.js]: per-user sliding-window limiter *)

Module Limiter.

(** What the middleware does with the request. *)
Inductive Verdict :=
| Next      (* next() *)
| Status429 (* res.status(429).json({error: 'Too many actions...'}) *).

(** One call of the middleware returned by
    [userActionLimiter(maxActions, windowMs)].  [user] is
    [req.user._id.toString()] when [req.user] is set, [now] is
    [Date.now()], and [userActions] is the closure's [Map].  The array
    [validActions] is stored in the map before [push] mutates it, so the
    pushed time stamp is visible through the map. *)
Definition userActionLimiter (maxActions windowMs : Z)
    (user : option string) (now : Z) (userActions : gmap string (list Z))
    : Verdict * gmap string (list Z) :=
  match user with
  | None => (Next, userActions)
  | Some userId =>
      let userActions1 :=
        match userActions !! userId with
        | None => <[userId := []]> userActions
        | Some _ => userActions
        end in
      let userActionsList := default [] (userActions1 !! userId) in
      let validActions :=
        filter (λ time, now - time < windowMs) userActionsList in
      let userActions2 := <[userId := validActions]> userActions1 in
      if bool_decide (Z.of_nat (length validActions) >= maxActions)
      then (Status429, userActions2)
      else (Next, <[userId := validActions ++ [now]]> userActions2)
  end.

(** A request as the middleware sees it: the authenticated user, if any,
    and the clock reading when it is handled. *)
Definition Request : Type := option string * Z.

(** The middleware serving a sequence of requests, threading its map. *)
Fixpoint serve (maxActions windowMs : Z) (reqs : list Request)
    (userActions : gmap string (list Z))
    : list Verdict * gmap string (list Z) :=
  match reqs with
  | [] => ([], userActions)
  | (user, now) :: rest =>
      let '(v, m) := userActionLimiter maxActions windowMs user now userActions in
      let '(vs, m') := serve maxActions windowMs rest m in
      (v :: vs, m')
  end.

(** The time stamps of the requests of [userId] that were admitted. *)
Fixpoint admitted (userId : string) (reqs : list Request)
    (vs : list Verdict) : list Z :=
  match reqs, vs with
  | (user, now) :: reqs', v :: vs' =>
      match v with
      | Next =>
          if bool_decide (user = Some userId)
          then now :: admitted userId reqs' vs'
          else admitted userId reqs' vs'
      | Status429 => admitted userId reqs' vs'
      end
  | _, _ => []
  end.

(** The clock never runs backwards over a sequence of requests. *)
Fixpoint clockFrom (last : Z) (reqs : list Request) : Prop :=
  match reqs with
  | [] => True
  | (_, now) :: rest => last <= now ∧ clockFrom now rest
  end.

Definition clockMonotone (reqs : list Request) : Prop :=
  match reqs with
  | [] => True
  | (_, now) :: rest => clockFrom now rest
  end.

(** How many of the stamps fall into the half-open window [(T - w, T]]. *)
Definition inWindow (windowMs T : Z) (stamps : list Z) : nat :=
  length (filter (λ t, T - windowMs < t ∧ t <= T) stamps).

(** Bookkeeping for the window argument: above the pruning threshold of
    the last call, the stored list [l] and the admitted stamps [A] hold
    the same stamps. *)
Definition tracks (windowMs last : Z) (A l : list Z) : Prop :=
  ∀ c, last - windowMs <= c →
    filter (λ t, c < t) A = filter (λ t, c < t) l.

(** The limiter as the specification words it: drop the time stamps
    older than [now - windowMs]; reject when [maxCount] or more remain;
    otherwise append [now] and accept. *)
Definition spec_allow (maxCount windowMs now : Z) (stamps : list Z)
    : bool * list Z :=
  let remaining := filter (λ t, ¬ (t < now - windowMs)) stamps in
  if bool_decide (Z.of_nat (length remaining) >= maxCount)
  then (false, remaining)
  else (true, remaining ++ [now]).

(** The source agrees with that wording when, from every state, both
    take the same decision and leave the same list behind. *)
Definition follows_spec_wording : Prop :=
  ∀ maxCount windowMs userId now (m : gmap string (list Z)),
    let r := userActionLimiter maxCount windowMs (Some userId) now m in
    let s := spec_allow maxCount windowMs now (default [] (m !! userId)) in
    (r.1 = Next ↔ s.1 = true) ∧ r.2 !! userId = Some s.2.

(** Six calls by one user. *)
Definition sixCalls (userId : string) (t1 t2 t3 t4 t5 t6 : Z) : list Request :=
  (λ t, (Some userId, t)) <$> [t1; t2; t3; t4; t5; t6].

End Limiter.

(** ** JavaScript values and [JSON.parse] *)

Module JSON.

(** The values [JSON.parse] can produce, and [undefined] for a property
    that is absent.  A number is the exact decimal [m * 10 ^ e]. *)
#[warnings="-register-all"]
Inductive Value :=
| Undefined
| Null
| Bool (b : bool)
| Num (m e : Z)
| Str (s : string)
| Arr (items : list Value)
| Obj (fields : list (string * Value)).

Definition int (n : Z) : Value := Num n 0.

(** [o[key]]: the last binding of [key] wins, as when [JSON.parse] meets a
    repeated key. *)
Fixpoint lookup (key : string) (fields : list (string * Value)) : Value :=
  match fields with
  | [] => Undefined
  | (k, v) :: rest =>
      match lookup key rest with
      | Undefined => if String.eqb k key then v else Undefined
      | later => later
      end
  end.

Definition get (v : Value) (key : string) : Value :=
  match v with
  | Obj fields => lookup key fields
  | _ => Undefined
  end.

Definition isWs (c : ascii) : bool :=
  match c with
  | " "%char | "009"%char | "010"%char | "013"%char => true
  | _ => false
  end.

Fixpoint skipWs (s : string) : string :=
  match s with
  | String c s' => if isWs c then skipWs s' else s
  | EmptyString => s
  end.

Definition digitVal (c : ascii) : option Z :=
  let n := Z.of_N (N_of_ascii c) in
  if (48 <=? n) && (n <=? 57) then Some (n - 48) else None.

Definition hexVal (c : ascii) : option Z :=
  let n := Z.of_N (N_of_ascii c) in
  if (48 <=? n) && (n <=? 57) then Some (n - 48)
  else if (65 <=? n) && (n <=? 70) then Some (n - 55)
  else if (97 <=? n) && (n <=? 102) then Some (n - 87)
  else None.

(** A maximal run of decimal digits: its value on top of [acc], how many
    digits were read on top of [n], and the rest of the text. *)
Fixpoint digits (acc n : Z) (s : string) : Z * Z * string :=
  match s with
  | String c s' =>
      match digitVal c with
      | Some d => digits (acc * 10 + d) (n + 1) s'
      | None => (acc, n, s)
      end
  | EmptyString => (acc, n, s)
  end.

(** An optional minus sign, an integer part without a leading zero
    (or a lone zero), an optional fraction and an optional exponent. *)
Definition parseNumber (s : string) : option (Value * string) :=
  let '(neg, s1) :=
    match s with
    | String "-"%char r => (true, r)
    | _ => (false, s)
    end in
  match s1 with
  | EmptyString => None
  | String c r =>
      match digitVal c with
      | None => None
      | Some d =>
          let '(ip, _, s2) := if d =? 0 then (0, 1, r) else digits d 1 r in
          let frac :=
            match s2 with
            | String "."%char r2 =>
                let '(m, n, s3) := digits ip 0 r2 in
                if n =? 0 then None else Some (m, n, s3)
            | _ => Some (ip, 0, s2)
            end in
          match frac with
          | None => None
          | Some (m, n, s3) =>
              let ex :=
                match s3 with
                | String ("e" | "E")%char r3 =>
                    let '(sg, r4) :=
                      match r3 with
                      | String "-"%char r => (-1, r)
                      | String "+"%char r => (1, r)
                      | _ => (1, r3)
                      end in
                    let '(e, k, s5) := digits 0 0 r4 in
                    if k =? 0 then None else Some (sg * e, s5)
                | _ => Some (0, s3)
                end in
              match ex with
              | None => None
              | Some (e, s5) => Some (Num (if neg : bool then - m else m) (e - n), s5)
              end
          end
      end
  end.

(** A string's content as it is scanned: a byte of the text, or the code
    unit of a [\uXXXX] escape. *)
Inductive Unit := Raw (c : ascii) | Esc (u : Z).

(** The text after an opening quote, up to the closing quote. *)
Fixpoint scanString (s : string) : option (list Unit * string) :=
  match s with
  | EmptyString => None
  | String c r =>
      match c with
      | "034"%char => Some ([], r)
      | "\"%char =>
          match r with
          | String e r' =>
              let simple (b : ascii) :=
                match scanString r' with
                | Some (us, rest) => Some (Raw b :: us, rest)
                | None => None
                end in
              match e with
              | "034"%char | "\"%char | "/"%char => simple e
              | "b"%char => simple "008"%char
              | "f"%char => simple "012"%char
              | "n"%char => simple "010"%char
              | "r"%char => simple "013"%char
              | "t"%char => simple "009"%char
              | "u"%char =>
                  match r' with
                  | String h1 (String h2 (String h3 (String h4 r''))) =>
                      match hexVal h1, hexVal h2, hexVal h3, hexVal h4 with
                      | Some a, Some b, Some c', Some d =>
                          match scanString r'' with
                          | Some (us, rest) =>
                              Some (Esc (((a * 16 + b) * 16 + c') * 16 + d) :: us, rest)
                          | None => None
                          end
                      | _, _, _, _ => None
                      end
                  | _ => None
                  end
              | _ => None
              end
          | EmptyString => None
          end
      | _ =>
          if (N_of_ascii c <? 32)%N then None
          else
            match scanString r with
            | Some (us, rest) => Some (Raw c :: us, rest)
            | None => None
            end
      end
  end.

Definition byte (n : Z) : ascii := ascii_of_N (Z.to_N n).

(** UTF-8 bytes of a code point. *)
Definition utf8 (cp : Z) : string :=
  if cp <? 128 then String (byte cp) EmptyString
  else if cp <? 2048 then
    String (byte (192 + cp / 64)) (String (byte (128 + cp mod 64)) EmptyString)
  else if cp <? 65536 then
    String (byte (224 + cp / 4096))
      (String (byte (128 + (cp / 64) mod 64))
         (String (byte (128 + cp mod 64)) EmptyString))
  else
    String (byte (240 + cp / 262144))
      (String (byte (128 + (cp / 4096) mod 64))
         (String (byte (128 + (cp / 64) mod 64))
            (String (byte (128 + cp mod 64)) EmptyString))).

Definition isHigh (u : Z) : bool := (55296 <=? u) && (u <=? 56319).
Definition isLow (u : Z) : bool := (56320 <=? u) && (u <=? 57343).

(** The scanned content as bytes; an escaped surrogate pair is one code
    point. *)
Fixpoint encodeUnits (us : list Unit) : string :=
  match us with
  | [] => EmptyString
  | Raw c :: r => String c (encodeUnits r)
  | Esc hi :: r =>
      match r with
      | Esc lo :: r' =>
          if isHigh hi && isLow lo
          then utf8 (65536 + (hi - 55296) * 1024 + (lo - 56320)) +:+ encodeUnits r'
          else utf8 hi +:+ encodeUnits r
      | _ => utf8 hi +:+ encodeUnits r
      end
  end.

Definition parseString (s : string) : option (string * string) :=
  match scanString s with
  | Some (us, rest) => Some (encodeUnits us, rest)
  | None => None
  end.

(** A value, the elements of an array after its first bracket, and the
    members of an object after its first brace.  Each nested call spends
    one unit of [fuel]. *)
Fixpoint parseValue (fuel : nat) (s : string) : option (Value * string) :=
  match fuel with
  | O => None
  | S fuel' =>
      match skipWs s with
      | EmptyString => None
      | String c r =>
          match c with
          | "{"%char =>
              match skipWs r with
              | String "}"%char r' => Some (Obj [], r')
              | _ =>
                  match parseMembers fuel' r with
                  | Some (fs, r') => Some (Obj fs, r')
                  | None => None
                  end
              end
          | "["%char =>
              match skipWs r with
              | String "]"%char r' => Some (Arr [], r')
              | _ =>
                  match parseElements fuel' r with
                  | Some (vs, r') => Some (Arr vs, r')
                  | None => None
                  end
              end
          | "034"%char =>
              match parseString r with
              | Some (str, r') => Some (Str str, r')
              | None => None
              end
          | "t"%char =>
              match r with
              | String "r"%char (String "u"%char (String "e"%char r')) =>
                  Some (Bool true, r')
              | _ => None
              end
          | "f"%char =>
              match r with
              | String "a"%char (String "l"%char (String "s"%char (String "e"%char r'))) =>
                  Some (Bool false, r')
              | _ => None
              end
          | "n"%char =>
              match r with
              | String "u"%char (String "l"%char (String "l"%char r')) =>
                  Some (Null, r')
              | _ => None
              end
          | _ => parseNumber (String c r)
          end
      end
  end
with parseElements (fuel : nat) (s : string) : option (list Value * string) :=
  match fuel with
  | O => None
  | S fuel' =>
      match parseValue fuel' s with
      | None => None
      | Some (v, r) =>
          match skipWs r with
          | String ","%char r' =>
              match parseElements fuel' r' with
              | Some (vs, r'') => Some (v :: vs, r'')
              | None => None
              end
          | String "]"%char r' => Some ([v], r')
          | _ => None
          end
      end
  end
with parseMembers (fuel : nat) (s : string)
    : option (list (string * Value) * string) :=
  match fuel with
  | O => None
  | S fuel' =>
      match skipWs s with
      | String "034"%char r =>
          match parseString r with
          | None => None
          | Some (k, r1) =>
              match skipWs r1 with
              | String ":"%char r2 =>
                  match parseValue fuel' r2 with
                  | None => None
                  | Some (v, r3) =>
                      match skipWs r3 with
                      | String ","%char r4 =>
                          match parseMembers fuel' r4 with
                          | Some (fs, r5) => Some ((k, v) :: fs, r5)
                          | None => None
                          end
                      | String "}"%char r4 => Some ([(k, v)], r4)
                      | _ => None
                      end
                  end
              | _ => None
              end
          end
      | _ => None
      end
  end.

(** [JSON.parse(text)]; [None] stands for the [SyntaxError] it throws.
    Twice the length of the text is fuel enough: a nested call either
    follows a consumed character or comes directly after one that does. *)
Definition parse (text : string) : option Value :=
  match parseValue (2 * String.length text + 2) text with
  | Some (v, rest) =>
      match skipWs rest with
      | EmptyString => Some v
      | String _ _ => None
      end
  | None => None
  end.

End JSON.

(** ** The external model provider *)

Module Groq.

Record Message := { role : string; content : string }.

(** The argument of [groq.chat.completions.create].  [temperature] is in
    tenths. *)
Record Request := {
  model : string;
  messages : list Message;
  temperature : Z;
  max_tokens : Z
}.

(** The promise rejects, or resolves to a completion of which the code
    reads [choices?.[0]?.message?.content]. *)
Inductive Outcome :=
| Throws
| Completion (content : option string).

End Groq.

(** The process environment and the provider the service talks to. *)
Record World := {
  GROQ_API_KEY : option string;
  GROQ_MODEL : option string;
  groq : Groq.Request → Groq.Outcome
}.

(** Computations that may call the provider: the state is the list of the
    requests sent so far. *)
Definition M (A : Type) : Type := list Groq.Request → A * list Groq.Request.

Definition ret {A} (a : A) : M A := λ log, (a, log).

Definition bind {A B} (m : M A) (k : A → M B) : M B :=
  λ log, let '(a, log') := m log in k a log'.

(** [await this.groq.chat.completions.create(request)] *)
Definition create (w : World) (request : Groq.Request) : M Groq.Outcome :=
  λ log, (groq w request, log ++ [request]).

(** [s || fallback] for a string that may be absent. *)
Definition orElse (s : option string) (fallback : string) : string :=
  match s with
  | Some (String c r) => String c r
  | Some EmptyString | None => fallback
  end.

(** ** [services/aiService.js] *)

Module Symptom.

Inductive Severity := mild | moderate | severe.

Record Duration := { value : option Z; unit : option string }.

Record t := {
  name : string;
  severity : option Severity;
  duration : option Duration;
  description : option string
}.

End Symptom.

Record UserContext := {
  age : option Z;
  gender : option string;
  existingConditions : option (list string);
  medications : option (list string);
  allergies : option (list string);
  healthProfile : option string
}.

Module Rule.
Record t := { match_ : list string; condition : string; riskBase : Z }.
End Rule.

Module Condition.
Record t := {
  condition : string;
  probability : Z;
  confidence : Z;
  description : string;
  symptoms : list string;
  riskLevel : string
}.
End Condition.

Module Recommendation.
Record t := {
  type : string;
  title : string;
  description : string;
  priority : string;
  timeframe : string
}.
End Recommendation.

Module FollowUp.
Record t := { timeframe : string; actions : list string }.
End FollowUp.

Module Assessment.
Record t := {
  possibleConditions : list Condition.t;
  recommendations : list Recommendation.t;
  generalAdvice : string;
  whenToSeekHelp : string;
  followUp : FollowUp.t
}.
End Assessment.

Module AIService.
Import Symptom.

(** The system prompts of the constructor. *)
Definition symptomChecker : string :=
  "You are a medical AI assistant designed to help users understand their symptoms and provide general health guidance. 

IMPORTANT DISCLAIMERS:
- You are NOT a doctor and cannot provide medical diagnosis
- Always recommend consulting healthcare professionals for serious symptoms
- Focus on general wellness advice and symptom understanding
- Encourage professional medical evaluation when appropriate

Your role is to:
1. Analyze reported symptoms and provide possible explanations
2. Suggest when to seek professional medical help
3. Offer general wellness and lifestyle recommendations
4. Help users understand their symptoms better
5. Provide educational information about health conditions

Always maintain a caring, professional tone and prioritize user safety.".

Definition healthChat : string :=
  "You are a compassionate AI healthcare assistant designed to provide general health information, wellness advice, and support to users.

Your capabilities include:
- Answering general health questions
- Providing wellness and lifestyle advice
- Explaining medical concepts in simple terms
- Offering emotional support and encouragement
- Suggesting healthy habits and preventive measures

IMPORTANT LIMITATIONS:
- You cannot diagnose medical conditions
- You cannot prescribe medications
- You cannot replace professional medical advice
- Always recommend consulting healthcare providers for medical concerns

Maintain a warm, supportive, and professional tone while being clear about your limitations.".

(** The closing part of the prompt of [analyzeSymptoms]: what to provide
    and the JSON shape asked for. *)
Definition symptomInstructions : string :=
  "

Please provide:
1. Possible explanations for these symptoms (with confidence levels)
2. Recommendations for when to seek medical attention
3. General wellness advice
4. Follow-up actions the user should consider

Format your response as JSON with the following structure:
{
  " +:+ JS.dq +:+ "possibleConditions" +:+ JS.dq +:+ ": [
    {
      " +:+ JS.dq +:+ "condition" +:+ JS.dq +:+ ": " +:+ JS.dq +:+ "string" +:+ JS.dq +:+ ",
      " +:+ JS.dq +:+ "probability" +:+ JS.dq +:+ ": number (0-100),
      " +:+ JS.dq +:+ "confidence" +:+ JS.dq +:+ ": number (0-100),
      " +:+ JS.dq +:+ "description" +:+ JS.dq +:+ ": " +:+ JS.dq +:+ "string" +:+ JS.dq +:+ ",
      " +:+ JS.dq +:+ "symptoms" +:+ JS.dq +:+ ": [" +:+ JS.dq +:+ "string" +:+ JS.dq +:+ "],
      " +:+ JS.dq +:+ "riskLevel" +:+ JS.dq +:+ ": " +:+ JS.dq +:+ "low|medium|high|critical" +:+ JS.dq +:+ "
    }
  ],
  " +:+ JS.dq +:+ "recommendations" +:+ JS.dq +:+ ": [
    {
      " +:+ JS.dq +:+ "type" +:+ JS.dq +:+ ": " +:+ JS.dq +:+ "lifestyle|medication|consultation|emergency|monitoring" +:+ JS.dq +:+ ",
      " +:+ JS.dq +:+ "title" +:+ JS.dq +:+ ": " +:+ JS.dq +:+ "string" +:+ JS.dq +:+ ",
      " +:+ JS.dq +:+ "description" +:+ JS.dq +:+ ": " +:+ JS.dq +:+ "string" +:+ JS.dq +:+ ",
      " +:+ JS.dq +:+ "priority" +:+ JS.dq +:+ ": " +:+ JS.dq +:+ "low|medium|high|urgent" +:+ JS.dq +:+ ",
      " +:+ JS.dq +:+ "timeframe" +:+ JS.dq +:+ ": " +:+ JS.dq +:+ "string" +:+ JS.dq +:+ "
    }
  ],
  " +:+ JS.dq +:+ "generalAdvice" +:+ JS.dq +:+ ": " +:+ JS.dq +:+ "string" +:+ JS.dq +:+ ",
  " +:+ JS.dq +:+ "whenToSeekHelp" +:+ JS.dq +:+ ": " +:+ JS.dq +:+ "string" +:+ JS.dq +:+ ",
  " +:+ JS.dq +:+ "followUp" +:+ JS.dq +:+ ": {
    " +:+ JS.dq +:+ "timeframe" +:+ JS.dq +:+ ": " +:+ JS.dq +:+ "string" +:+ JS.dq +:+ ",
    " +:+ JS.dq +:+ "actions" +:+ JS.dq +:+ ": [" +:+ JS.dq +:+ "string" +:+ JS.dq +:+ "]
  }
}".

(** The closing part of the prompt of [chatResponse]. *)
Definition chatInstructions : string :=
  "

Please provide a helpful, informative response that:
1. Addresses the user's question or concern
2. Provides accurate health information
3. Maintains appropriate medical boundaries
4. Offers supportive and encouraging guidance
5. Suggests when professional help might be needed

Keep your response conversational, helpful, and within your capabilities.".

(** [this.defaultModel] *)
Definition defaultModel (w : World) : string :=
  orElse (GROQ_MODEL w) "llama3-70b-8192".

(** [n || fallback] in a template: zero is falsy. *)
Definition numberOr (n : option Z) (fallback : string) : string :=
  match n with
  | Some 0 | None => fallback
  | Some v => pretty v
  end.

(** [list?.join(', ') || fallback] *)
Definition joinedOr (l : option (list string)) (fallback : string) : string :=
  orElse (JS.join ", " <$> l) fallback.

Definition severityName (s : option Severity) : string :=
  match s with
  | Some mild => "mild"
  | Some moderate => "moderate"
  | Some severe => "severe"
  | None => "undefined"
  end.

(** One line of the symptom list of the prompt. *)
Definition symptomLine (s : Symptom.t) : string :=
  "- " +:+ name s +:+ ": " +:+ severityName (severity s) +:+ " severity, "
  +:+ numberOr (duration s ≫= value) "unknown" +:+ " "
  +:+ orElse (duration s ≫= unit) "duration" +:+ ", "
  +:+ orElse (description s) "no description".

Definition symptomPrompt (symptoms : list Symptom.t) (userContext : UserContext)
    : string :=
  JS.nl +:+ symptomChecker +:+ JS.nl +:+ JS.nl
  +:+ "User Profile:" +:+ JS.nl
  +:+ "- Age: " +:+ numberOr (age userContext) "Not specified" +:+ JS.nl
  +:+ "- Gender: " +:+ orElse (gender userContext) "Not specified" +:+ JS.nl
  +:+ "- Existing Conditions: "
  +:+ joinedOr (existingConditions userContext) "None reported" +:+ JS.nl
  +:+ "- Current Medications: "
  +:+ joinedOr (medications userContext) "None reported" +:+ JS.nl
  +:+ "- Allergies: " +:+ joinedOr (allergies userContext) "None reported"
  +:+ JS.nl +:+ JS.nl
  +:+ "Reported Symptoms:" +:+ JS.nl
  +:+ JS.join JS.nl (symptomLine <$> symptoms)
  +:+ symptomInstructions.

(** [parseFallbackResponse(response)] *)
Definition parseFallbackResponse (response : string) : Assessment.t :=
  {| Assessment.possibleConditions :=
       [ {| Condition.condition := "General symptoms";
            Condition.probability := 50;
            Condition.confidence := 60;
            Condition.description := "Based on the symptoms provided";
            Condition.symptoms := ["Various symptoms"];
            Condition.riskLevel := "medium" |} ];
     Assessment.recommendations :=
       [ {| Recommendation.type := "consultation";
            Recommendation.title := "Consult Healthcare Provider";
            Recommendation.description :=
              "Schedule an appointment with your doctor to discuss these symptoms";
            Recommendation.priority := "medium";
            Recommendation.timeframe := "Within a week" |} ];
     Assessment.generalAdvice :=
       orElse (Some response)
         "Please consult with a healthcare professional for proper evaluation.";
     Assessment.whenToSeekHelp :=
       "If symptoms persist or worsen, seek medical attention promptly.";
     Assessment.followUp :=
       {| FollowUp.timeframe := "1-2 weeks";
          FollowUp.actions := ["Monitor symptoms"; "Schedule doctor appointment"] |}
  |}.

(** [severityScore[(s.severity || 'mild')] || 1] *)
Definition severityScore (s : Symptom.t) : Z :=
  match severity s with
  | Some mild | None => 1
  | Some moderate => 2
  | Some severe => 3
  end.

Definition totalSeverity (symptoms : list Symptom.t) : Z :=
  fold_left (λ sum s, sum + severityScore s) symptoms 0.

Definition maxSeverity (symptoms : list Symptom.t) : Z :=
  fold_left (λ max s, Z.max max (severityScore s)) symptoms 1.

Definition names (symptoms : list Symptom.t) : list string :=
  (λ s, JS.toLowerCase (name s)) <$> symptoms.

Definition rules : list Rule.t :=
  [ {| Rule.match_ := ["fever"; "cough"];
       Rule.condition := "Viral respiratory infection"; Rule.riskBase := 30 |};
    {| Rule.match_ := ["headache"; "nausea"];
       Rule.condition := "Migraine"; Rule.riskBase := 25 |};
    {| Rule.match_ := ["chest pain"];
       Rule.condition := "Cardiac or musculoskeletal cause"; Rule.riskBase := 50 |};
    {| Rule.match_ := ["fatigue"];
       Rule.condition := "Fatigue (multifactorial)"; Rule.riskBase := 20 |};
    {| Rule.match_ := ["abdominal pain"];
       Rule.condition := "Gastrointestinal upset"; Rule.riskBase := 30 |};
    {| Rule.match_ := ["shortness of breath"];
       Rule.condition := "Respiratory issue"; Rule.riskBase := 40 |} ].

(** [r.match.some(m => names.includes(m))] *)
Definition ruleMatches (symptomNames : list string) (r : Rule.t) : bool :=
  existsb (JS.arrayIncludes symptomNames) (Rule.match_ r).

Definition matched (symptoms : list Symptom.t) : list Rule.t :=
  List.filter (ruleMatches (names symptoms)) rules.

Definition baseConditions (symptoms : list Symptom.t) : list Rule.t :=
  match matched symptoms with
  | [] => [ {| Rule.match_ := []; Rule.condition := "Non-specific presentation";
               Rule.riskBase := 15 |} ]
  | m => m
  end.

(** The callback of [baseConditions.slice(0, 3).map((r, idx) => ...)]. *)
Definition toCondition (symptoms : list Symptom.t) (idx : nat) (r : Rule.t)
    : Condition.t :=
  let probability :=
    Z.min 90 (Rule.riskBase r + maxSeverity symptoms * 10 + Z.of_nat idx * 5) in
  let confidence :=
    Z.min 90 (40 + totalSeverity symptoms * 8 - Z.of_nat idx * 5) in
  let riskLevel :=
    if 70 <=? probability then "high"
    else if 45 <=? probability then "medium" else "low" in
  {| Condition.condition := Rule.condition r;
     Condition.probability := probability;
     Condition.confidence := confidence;
     Condition.description :=
       "Estimated from reported symptoms using heuristic rules.";
     Condition.symptoms := names symptoms;
     Condition.riskLevel := riskLevel |}.

Definition heuristicRecommendations (symptoms : list Symptom.t)
    : list Recommendation.t :=
  (if (3 <=? maxSeverity symptoms)
      || JS.arrayIncludes (names symptoms) "chest pain"
      || JS.arrayIncludes (names symptoms) "shortness of breath"
   then [ {| Recommendation.type := "emergency";
             Recommendation.title :=
               "Seek urgent medical care if symptoms are severe";
             Recommendation.description :=
               "If chest pain, severe shortness of breath, fainting, or confusion occur, seek immediate medical attention.";
             Recommendation.priority := "urgent";
             Recommendation.timeframe := "Immediately" |} ]
   else [])
  ++ [ {| Recommendation.type := "consultation";
          Recommendation.title := "Consult a healthcare professional";
          Recommendation.description :=
            "Discuss these symptoms with your healthcare provider for appropriate evaluation.";
          Recommendation.priority :=
            if 2 <=? maxSeverity symptoms then "high" else "medium";
          Recommendation.timeframe :=
            if 2 <=? maxSeverity symptoms then "Within 1-3 days"
            else "Within 1-2 weeks" |};
       {| Recommendation.type := "lifestyle";
          Recommendation.title := "Supportive care";
          Recommendation.description :=
            "Hydration, balanced diet, rest, and monitoring of symptom changes.";
          Recommendation.priority := "medium";
          Recommendation.timeframe := "Ongoing" |} ].

(** [ruleBasedAssessment(symptoms, userContext)] *)
Definition ruleBasedAssessment (symptoms : list Symptom.t)
    (userContext : UserContext) : Assessment.t :=
  {| Assessment.possibleConditions :=
       imap (toCondition symptoms) (take 3 (baseConditions symptoms));
     Assessment.recommendations := heuristicRecommendations symptoms;
     Assessment.generalAdvice :=
       "This is educational guidance only and not a diagnosis. Monitor symptom changes and seek professional care as appropriate.";
     Assessment.whenToSeekHelp :=
       "If symptoms worsen, new severe symptoms develop, or you are concerned, seek medical attention promptly.";
     Assessment.followUp :=
       {| FollowUp.timeframe := "1-2 weeks";
          FollowUp.actions :=
            ["Monitor symptoms daily"; "Track temperature and severity";
             "Consult provider if persistent"] |}
  |}.

(** The object an [Assessment.t] stands for. *)
Definition conditionToJS (c : Condition.t) : JSON.Value :=
  JSON.Obj
    [ ("condition", JSON.Str (Condition.condition c));
      ("probability", JSON.int (Condition.probability c));
      ("confidence", JSON.int (Condition.confidence c));
      ("description", JSON.Str (Condition.description c));
      ("symptoms", JSON.Arr (JSON.Str <$> Condition.symptoms c));
      ("riskLevel", JSON.Str (Condition.riskLevel c)) ].

Definition recommendationToJS (r : Recommendation.t) : JSON.Value :=
  JSON.Obj
    [ ("type", JSON.Str (Recommendation.type r));
      ("title", JSON.Str (Recommendation.title r));
      ("description", JSON.Str (Recommendation.description r));
      ("priority", JSON.Str (Recommendation.priority r));
      ("timeframe", JSON.Str (Recommendation.timeframe r)) ].

Definition toJS (a : Assessment.t) : JSON.Value :=
  JSON.Obj
    [ ("possibleConditions",
        JSON.Arr (conditionToJS <$> Assessment.possibleConditions a));
      ("recommendations",
        JSON.Arr (recommendationToJS <$> Assessment.recommendations a));
      ("generalAdvice", JSON.Str (Assessment.generalAdvice a));
      ("whenToSeekHelp", JSON.Str (Assessment.whenToSeekHelp a));
      ("followUp",
        JSON.Obj
          [ ("timeframe", JSON.Str (FollowUp.timeframe (Assessment.followUp a)));
            ("actions",
              JSON.Arr (JSON.Str <$> FollowUp.actions (Assessment.followUp a))) ]) ].

(** The recovery from a reply that is not JSON as a whole: the text from
    the first opening brace to the last closing brace, when there is one. *)
Definition parseSlice (response : string) : option JSON.Value :=
  let firstBrace := JS.indexOf response "{"%char in
  let lastBrace := JS.lastIndexOf response "}"%char in
  if negb (firstBrace =? -1) && negb (lastBrace =? -1) && (firstBrace <? lastBrace)
  then JSON.parse (JS.slice response firstBrace (lastBrace + 1))
  else None.

(** The request [analyzeSymptoms] sends. *)
Definition symptomRequest (w : World) (symptoms : list Symptom.t)
    (userContext : UserContext) : Groq.Request :=
  {| Groq.model := defaultModel w;
     Groq.messages :=
       [ {| Groq.role := "system";
            Groq.content := symptomPrompt symptoms userContext |};
         {| Groq.role := "user";
            Groq.content := "Please analyze these symptoms and provide guidance." |} ];
     Groq.temperature := 3;
     Groq.max_tokens := 1500 |}.

(** [analyzeSymptoms(symptoms, userContext)].  The outer [catch] is the
    [Throws] branch. *)
Definition analyzeSymptoms (w : World) (symptoms : list Symptom.t)
    (userContext : UserContext) : M JSON.Value :=
  match orElse (GROQ_API_KEY w) "" with
  | EmptyString => ret (toJS (ruleBasedAssessment symptoms userContext))
  | String _ _ =>
      bind (create w (symptomRequest w symptoms userContext))
        (λ completion,
           match completion with
           | Groq.Throws => ret (toJS (ruleBasedAssessment symptoms userContext))
           | Groq.Completion content =>
               let response := orElse content "" in
               match JSON.parse response with
               | Some v => ret v
               | None =>
                   match parseSlice response with
                   | Some v => ret v
                   | None => ret (toJS (parseFallbackResponse response))
                   end
               end
           end)
  end.

(** The value read from the provider's text, when the provider was asked
    and its text parses as a whole or between its outermost braces. *)
Definition modelJSON (w : World) (symptoms : list Symptom.t)
    (userContext : UserContext) : option JSON.Value :=
  match orElse (GROQ_API_KEY w) "" with
  | EmptyString => None
  | String _ _ =>
      match groq w (symptomRequest w symptoms userContext) with
      | Groq.Throws => None
      | Groq.Completion content =>
          match JSON.parse (orElse content "") with
          | Some v => Some v
          | None => parseSlice (orElse content "")
          end
      end
  end.

(** A number between 0 and 100. *)
Definition inPercentRange (v : JSON.Value) : bool :=
  match v with
  | JSON.Num m e =>
      (0 <=? m) && (if 0 <=? e then m * 10 ^ e <=? 100 else m <=? 100 * 10 ^ (- e))
  | _ => false
  end.

(** An assessment with at least one possible condition, each with a
    probability and a confidence between 0 and 100. *)
Definition complete (v : JSON.Value) : bool :=
  match JSON.get v "possibleConditions" with
  | JSON.Arr (c :: cs) =>
      forallb
        (λ c, inPercentRange (JSON.get c "probability")
              && inPercentRange (JSON.get c "confidence"))
        (c :: cs)
  | _ => false
  end.

Definition chatPrompt (message : string) (conversationContext : list Groq.Message)
    (userContext : UserContext) : string :=
  JS.nl +:+ healthChat +:+ JS.nl +:+ JS.nl
  +:+ "User Context:" +:+ JS.nl
  +:+ "- Age: " +:+ numberOr (age userContext) "Not specified" +:+ JS.nl
  +:+ "- Gender: " +:+ orElse (gender userContext) "Not specified" +:+ JS.nl
  +:+ "- Health Profile: "
  +:+ orElse (healthProfile userContext) "Not specified" +:+ JS.nl +:+ JS.nl
  +:+ "Recent Conversation:" +:+ JS.nl
  +:+ JS.join JS.nl
        ((λ msg, Groq.role msg +:+ ": " +:+ Groq.content msg) <$> conversationContext)
  +:+ JS.nl +:+ JS.nl
  +:+ "Current Message: " +:+ message
  +:+ chatInstructions.

Definition chatApology : string :=
  "I apologize, but I'm having trouble processing your request right now. Please try again in a moment, or contact our support team if the issue persists.".

(** The request [chatResponse] sends. *)
Definition chatRequest (w : World) (message : string)
    (chatHistory : list Groq.Message) (userContext : UserContext)
    : Groq.Request :=
  let conversationContext := JS.lastN 10 chatHistory in
  {| Groq.model := defaultModel w;
     Groq.messages :=
       [ {| Groq.role := "system";
            Groq.content := chatPrompt message conversationContext userContext |} ]
       ++ conversationContext
       ++ [ {| Groq.role := "user"; Groq.content := message |} ];
     Groq.temperature := 7;
     Groq.max_tokens := 800 |}.

(** [chatResponse(message, chatHistory, userContext)] *)
Definition chatResponse (w : World) (message : string)
    (chatHistory : list Groq.Message) (userContext : UserContext) : M string :=
  bind (create w (chatRequest w message chatHistory userContext))
    (λ completion,
       match completion with
       | Groq.Throws => ret chatApology
       | Groq.Completion content => ret (orElse content "")
       end).

Definition dangerousKeywords : list string :=
  [ "self-diagnose"; "self-treat"; "ignore symptoms"; "delay treatment";
    "alternative medicine only"; "avoid doctors"; "natural cure" ].

Definition safeRedirect : string :=
  "I recommend consulting with a healthcare professional for proper evaluation of your symptoms.".

Record Validation := { isValid : bool; sanitizedResponse : JSON.Value }.

(** [validateResponse(response)] *)
Definition validateResponse (response : JSON.Value) : Validation :=
  let hasDangerousContent :=
    match response with
    | JSON.Str text => JS.includesAny (JS.toLowerCase text) dangerousKeywords
    | _ => false
    end in
  if hasDangerousContent
  then {| isValid := false; sanitizedResponse := JSON.Str safeRedirect |}
  else {| isValid := true; sanitizedResponse := response |}.

(** The claim that every result is a complete assessment. *)
Definition always_complete : Prop :=
  ∀ w symptoms userContext log,
    complete (analyzeSymptoms w symptoms userContext log).1 = true.

(** The claim that JSON wrapped in prose is recovered whatever the prose. *)
Definition wrapped_json_recovered : Prop :=
  ∀ w symptoms userContext log pre json post fields,
    orElse (GROQ_API_KEY w) "" ≠ "" →
    groq w (symptomRequest w symptoms userContext)
      = Groq.Completion (Some (pre +:+ json +:+ post)) →
    JSON.parse json = Some (JSON.Obj fields) →
    (analyzeSymptoms w symptoms userContext log).1 = JSON.Obj fields.

(** The claim that the chat reply is never empty. *)
Definition chat_never_empty : Prop :=
  ∀ w message chatHistory userContext log,
    (chatResponse w message chatHistory userContext log).1 ≠ "".

(** Inputs for the examples. *)
Definition noContext : UserContext :=
  {| age := None; gender := None; existingConditions := None;
     medications := None; allergies := None; healthProfile := None |}.

Definition feverReport : list Symptom.t :=
  [ {| name := "Fever"; severity := Some moderate;
       duration := None; description := None |} ].

(** A provider that answers every request with the same text. *)
Definition answering (text : string) : World :=
  {| GROQ_API_KEY := Some "key"; GROQ_MODEL := None;
     groq := λ _, Groq.Completion (Some text) |}.

(** An assessment as JSON text: what stands between its braces, and the
    whole. *)
Definition assessmentBody : string :=
  let q s := JS.dq +:+ s +:+ JS.dq in
  q "possibleConditions" +:+ ":[{" +:+ q "condition" +:+ ":" +:+ q "Common cold"
  +:+ "," +:+ q "probability" +:+ ":60," +:+ q "confidence" +:+ ":70,"
  +:+ q "description" +:+ ":" +:+ q "Viral infection" +:+ ","
  +:+ q "symptoms" +:+ ":[" +:+ q "fever" +:+ "]," +:+ q "riskLevel" +:+ ":" +:+ q "low"
  +:+ "}]," +:+ q "recommendations" +:+ ":[],"
  +:+ q "generalAdvice" +:+ ":" +:+ q "Rest and drink fluids." +:+ ","
  +:+ q "whenToSeekHelp" +:+ ":" +:+ q "If the fever lasts more than three days." +:+ ","
  +:+ q "followUp" +:+ ":{" +:+ q "timeframe" +:+ ":" +:+ q "1 week" +:+ ","
  +:+ q "actions" +:+ ":[]}".

Definition assessmentText : string := "{" +:+ assessmentBody +:+ "}".

Definition assessmentValue : JSON.Value :=
  JSON.Obj
    [ ("possibleConditions",
        JSON.Arr
          [ JSON.Obj
              [ ("condition", JSON.Str "Common cold");
                ("probability", JSON.Num 60 0);
                ("confidence", JSON.Num 70 0);
                ("description", JSON.Str "Viral infection");
                ("symptoms", JSON.Arr [JSON.Str "fever"]);
                ("riskLevel", JSON.Str "low") ] ]);
      ("recommendations", JSON.Arr []);
      ("generalAdvice", JSON.Str "Rest and drink fluids.");
      ("whenToSeekHelp", JSON.Str "If the fever lasts more than three days.");
      ("followUp",
        JSON.Obj [ ("timeframe", JSON.Str "1 week"); ("actions", JSON.Arr []) ]) ].

End AIService.

(** ** [models/Chat.js] *)

Module Chat.

Inductive Role := user | assistant | system.
Inductive Status := active | paused | completed | archived.
Inductive Emotion := calm | anxious | concerned | urgent | relaxed.
Inductive Level := low | medium | high | critical.

Record Message := { role : Role; content : string }.

Record Context := { emotionalState : Emotion; urgencyLevel : Level }.

(** [aiInsights.primaryConcern] and [aiInsights.riskAssessment.level]. *)
Record Insights := { primaryConcern : option string; riskLevel : Level }.

(** A chat document.  The fields that the code under study neither reads
    nor writes (title, category, user profile, feedback, settings, time
    stamps) are left out. *)
Record t := {
  userId : string;
  status : Status;
  messages : list Message;
  context : Context;
  aiInsights : Insights
}.

Definition isUser (r : Role) : bool :=
  match r with user => true | _ => false end.

Definition roleName (r : Role) : string :=
  match r with
  | user => "user"
  | assistant => "assistant"
  | system => "system"
  end.

Definition urgentKeywords : list string :=
  [ "emergency"; "urgent"; "immediate"; "severe"; "critical"; "pain"; "help" ].

(** The message [updateContext] looks at: the last user message among the
    last five messages. *)
Definition lastUserMessage (chat : t) : option Message :=
  last (List.filter (λ msg, isUser (role msg)) (JS.lastN 5 (messages chat))).

(** [chat.updateContext()] *)
Definition updateContext (chat : t) : t :=
  match messages chat with
  | [] => chat
  | _ :: _ =>
      match lastUserMessage chat with
      | None => chat
      | Some msg =>
          if JS.includesAny (JS.toLowerCase (content msg)) urgentKeywords
          then {| userId := userId chat;
                  status := status chat;
                  messages := messages chat;
                  context := {| emotionalState := urgent; urgencyLevel := high |};
                  aiInsights := aiInsights chat |}
          else chat
      end
  end.

(** [this.messages.push({role, content, metadata})] *)
Definition push (r : Role) (text : string) (chat : t) : t :=
  {| userId := userId chat;
     status := status chat;
     messages := messages chat ++ [ {| role := r; content := text |} ];
     context := context chat;
     aiInsights := aiInsights chat |}.

(** [chat.addMessage(role, content)]; saving the document is the caller's
    write to the store. *)
Definition addMessage (r : Role) (text : string) (chat : t) : t :=
  updateContext (push r text chat).

(** A session receiving a sequence of messages. *)
Definition addMessages (msgs : list Message) (chat : t) : t :=
  fold_left (λ c msg, addMessage (role msg) (content msg) c) msgs chat.

(** What [getSummary] derives from the fields above. *)
Record Summary := {
  summaryStatus : Status;
  messageCount : nat;
  summaryUrgencyLevel : Level;
  lastMessage : option Message
}.

Definition getSummary (chat : t) : Summary :=
  {| summaryStatus := status chat;
     messageCount := length (messages chat);
     summaryUrgencyLevel := urgencyLevel (context chat);
     lastMessage := last (messages chat) |}.

(** The urgency update as the specification words it: an emergency
    keyword gives [high] and [urgent]; otherwise a pain keyword gives
    [medium]; otherwise nothing changes. *)
Definition spec_emergencyKeywords : list string :=
  [ "emergency"; "urgent"; "immediate"; "severe"; "critical" ].

Definition spec_context (painKeywords : list string) (text : string)
    (prior : Context) : Context :=
  if JS.includesAny (JS.toLowerCase text) spec_emergencyKeywords
  then {| emotionalState := urgent; urgencyLevel := high |}
  else if JS.includesAny (JS.toLowerCase text) painKeywords
  then {| emotionalState := emotionalState prior; urgencyLevel := medium |}
  else prior.

(** A session as [POST /start] creates it. *)
Definition started (owner : string) : t :=
  {| userId := owner;
     status := active;
     messages := [];
     context := {| emotionalState := calm; urgencyLevel := low |};
     aiInsights := {| primaryConcern := None; riskLevel := low |} |}.

End Chat.

(** ** [routes/symptoms.js], chat router: posting a message to a session *)

Module ChatRoute.

Definition makerAnswer : string :=
  "This application was made by Tesfahun Kere (programmer).".

Definition asksWhoMade (content : string) : bool :=
  let text := JS.toLowerCase content in
  JS.includes text "who made"
  || JS.includes text "who built"
  || JS.includes text "who created"
  || (JS.includes text "developer"
      && (JS.includes text "site" || JS.includes text "app"
          || JS.includes text "application" || JS.includes text "website")).

Definition painKeywords : list string :=
  [ "pain"; "hurt"; "ache"; "sore"; "discomfort" ].

Definition emergencyKeywords : list string :=
  [ "emergency"; "urgent"; "immediate"; "severe"; "critical" ].

(** The insights computed from the text of the last user message. *)
Definition insightsFor (text : string) : Chat.Insights :=
  if JS.includesAny (JS.toLowerCase text) emergencyKeywords
  then {| Chat.primaryConcern := Some "emergency"; Chat.riskLevel := Chat.high |}
  else if JS.includesAny (JS.toLowerCase text) painKeywords
  then {| Chat.primaryConcern := Some "symptoms"; Chat.riskLevel := Chat.medium |}
  else {| Chat.primaryConcern := Some "general"; Chat.riskLevel := Chat.low |}.

(** [updateChatInsights(chat)].  Without a user message the read of
    [lastUserMessage.content] throws; the function catches and logs it. *)
Definition updateChatInsights (chat : Chat.t) : Chat.t :=
  if (length (Chat.messages chat) <? 2)%nat then chat
  else
    match last (List.filter (λ m, Chat.isUser (Chat.role m)) (Chat.messages chat)) with
    | None => chat
    | Some lastUserMessage =>
        {| Chat.userId := Chat.userId chat;
           Chat.status := Chat.status chat;
           Chat.messages := Chat.messages chat;
           Chat.context := Chat.context chat;
           Chat.aiInsights := insightsFor (Chat.content lastUserMessage) |}
    end.

(** [Chat.findOne({sessionId, userId, status: {$in: ['active', 'paused']}})] *)
Definition findOne (store : gmap string Chat.t) (sessionId userId : string)
    : option Chat.t :=
  match store !! sessionId with
  | Some chat =>
      if String.eqb (Chat.userId chat) userId
         && match Chat.status chat with
            | Chat.active | Chat.paused => true
            | _ => false
            end
      then Some chat else None
  | None => None
  end.

Inductive Reply :=
| BadRequest (errors : list string)  (* 400 *)
| NotFound                           (* 404 *)
| Sent (response : string) (chat : Chat.Summary) (* 200 *).

(** The handler of [POST /:sessionId/message], after [auth] and the
    limiter: [errors] is the outcome of the body validators, [userContext]
    what the handler derives from the user's record.  It returns the reply
    and the session store. *)
Definition postMessage (w : World) (store : gmap string Chat.t)
    (errors : list string) (sessionId userId content : string)
    (userContext : UserContext) : M (Reply * gmap string Chat.t) :=
  match errors with
  | _ :: _ => ret (BadRequest errors, store)
  | [] =>
      match findOne store sessionId userId with
      | None => ret (NotFound, store)
      | Some chat0 =>
          let chat1 := Chat.addMessage Chat.user content chat0 in
          if asksWhoMade content then
            let chat2 := Chat.addMessage Chat.assistant makerAnswer chat1 in
            let chat3 := updateChatInsights chat2 in
            ret (Sent makerAnswer (Chat.getSummary chat3),
                 <[sessionId := chat3]> store)
          else
            bind
              (AIService.chatResponse w content
                 ((λ m, {| Groq.role := Chat.roleName (Chat.role m);
                           Groq.content := Chat.content m |})
                    <$> Chat.messages chat1)
                 userContext)
              (λ aiResponse,
                 let validation := AIService.validateResponse (JSON.Str aiResponse) in
                 let finalResponse :=
                   if AIService.isValid validation then aiResponse
                   else AIService.safeRedirect in
                 let chat2 := Chat.addMessage Chat.assistant finalResponse chat1 in
                 let chat3 := updateChatInsights chat2 in
                 ret (Sent finalResponse (Chat.getSummary chat3),
                      <[sessionId := chat3]> store))
      end
  end.

(** The claim that [addMessage] updates the context as the specification
    words it, with the pain keywords of this file. *)
Definition urgency_follows_spec_wording : Prop :=
  ∀ chat r text msg,
    Chat.lastUserMessage (Chat.push r text chat) = Some msg →
    Chat.context (Chat.addMessage r text chat)
      = Chat.spec_context painKeywords (Chat.content msg) (Chat.context chat).

(** The maker question, in terms of the phrases the text contains. *)
Definition makerQuestion (content : string) : Prop :=
  JS.containsIgnoringCase content "who made"
  ∨ JS.containsIgnoringCase content "who built"
  ∨ JS.containsIgnoringCase content "who created"
  ∨ (JS.containsIgnoringCase content "developer"
     ∧ (JS.containsIgnoringCase content "site"
        ∨ JS.containsIgnoringCase content "app"
        ∨ JS.containsIgnoringCase content "application"
        ∨ JS.containsIgnoringCase content "website")).

End ChatRoute.

(** ** Views of the heuristic assessment *)

Module HeuristicViews.

(** A condition without the echoed symptom names. *)
Definition verdict (c : Condition.t) : string * Z * Z * string :=
  (Condition.condition c, Condition.probability c, Condition.confidence c,
   Condition.riskLevel c).

(** The same report with severities that are at least as high, symptom by
    symptom. *)
Definition atLeastAsSevere (report report' : list Symptom.t) : Prop :=
  Forall2 (λ s s', Symptom.name s = Symptom.name s'
                   ∧ AIService.severityScore s <= AIService.severityScore s')
    report report'.

End HeuristicViews.

(** ** [middleware/auth.js]: authentication *)

Module Auth.

(** [s.replace(pattern, replacement)] for a string pattern: the first
    occurrence is replaced.  The replacement is taken literally (the code
    passes the empty string). *)
Fixpoint replace (s pattern replacement : string) : string :=
  if JS.startsWith s pattern
  then replacement +:+ substring (String.length pattern)
                         (String.length s - String.length pattern) s
  else
    match s with
    | EmptyString => EmptyString
    | String c s' => String c (replace s' pattern replacement)
    end.

(** What the middleware reads of a user document. *)
Record User := { _id : string; isActive : bool; role : option string }.

(** [jwt.verify(token, process.env.JWT_SECRET)]: the decoded payload, of
    which the code reads [userId], or an error with its [name]. *)
Inductive Verified :=
| Decoded (userId : option string)
| VerifyThrows (name : string).

(** [await User.findById(id).select('-password')] *)
Inductive Lookup :=
| Found (user : User)
| Missing
| FindThrows (name : string).

Record Env := {
  verify : string → Verified;
  findById : option string → Lookup
}.

(** What a middleware does: it calls [next()], with [req.user] and
    [req.token] as they are then, or it answers. *)
Inductive Result :=
| Next (user : option (User * string))
| Answer (status : Z) (error : string).

(** [req.header('Authorization')?.replace('Bearer ', '')] *)
Definition headerToken (authorization : option string) : option string :=
  (λ h, replace h "Bearer " "") <$> authorization.

(** The [catch] of [auth]. *)
Definition authError (name : string) : Result :=
  if String.eqb name "JsonWebTokenError" then Answer 401 "Invalid token."
  else if String.eqb name "TokenExpiredError" then Answer 401 "Token expired."
  else Answer 500 "Authentication error.".

(** [auth(req, res, next)] *)
Definition auth (env : Env) (authorization : option string) : Result :=
  match headerToken authorization with
  | None | Some EmptyString => Answer 401 "Access denied. No token provided."
  | Some token =>
      match verify env token with
      | VerifyThrows name => authError name
      | Decoded userId =>
          match findById env userId with
          | FindThrows name => authError name
          | Missing => Answer 401 "Invalid token. User not found."
          | Found user =>
              if isActive user then Next (Some (user, token))
              else Answer 401 "Account is deactivated."
          end
      end
  end.

(** [optionalAuth(req, res, next)] *)
Definition optionalAuth (env : Env) (authorization : option string) : Result :=
  match headerToken authorization with
  | None | Some EmptyString => Next None
  | Some token =>
      match verify env token with
      | VerifyThrows _ => Next None
      | Decoded userId =>
          match findById env userId with
          | Found user =>
              if isActive user then Next (Some (user, token)) else Next None
          | Missing | FindThrows _ => Next None
          end
      end
  end.

(** The middleware returned by [requireRole(roles)], given [req.user]:
    it calls [next()] or answers. *)
Inductive Gate := Pass | Deny (status : Z) (error : string).

Definition requireRole (roles : list string) (user : option User) : Gate :=
  match user with
  | None => Deny 401 "Authentication required."
  | Some u =>
      match role u with
      | Some r =>
          if JS.arrayIncludes roles r then Pass
          else Deny 403 "Insufficient permissions."
      | None => Deny 403 "Insufficient permissions."
      end
  end.

End Auth.

(** ** Runs of the limiter, user by user *)

Module LimiterRuns.
Import Limiter.

(** The requests of one user. *)
Definition byUser (userId : string) (reqs : list Request) : list Request :=
  List.filter (λ r : Request, bool_decide (r.1 = Some userId)) reqs.

(** The verdicts given to the requests of one user. *)
Fixpoint verdictsFor (userId : string) (reqs : list Request)
    (vs : list Verdict) : list Verdict :=
  match reqs, vs with
  | (user, _) :: reqs', v :: vs' =>
      if bool_decide (user = Some userId)
      then v :: verdictsFor userId reqs' vs'
      else verdictsFor userId reqs' vs'
  | _, _ => []
  end.

(** Two maps that no call from [last] on can tell apart: for every user
    the stamps that survive pruning are the same. *)
Definition sameAbove (windowMs last : Z) (m1 m2 : gmap string (list Z)) : Prop :=
  ∀ userId t, last <= t →
    filter (λ time, t - time < windowMs) (default [] (m1 !! userId)) =
    filter (λ time, t - time < windowMs) (default [] (m2 !! userId)).

End LimiterRuns.

(** ** [calculateAge] of the routes *)

Module Age.

(** The calendar fields the function reads of a [Date]: [getFullYear()],
    [getMonth()] and [getDate()]. *)
Record Date := { fullYear : Z; month : Z; date : Z }.

(** [calculateAge(dateOfBirth)], with [today] for [new Date()]. *)
Definition calculateAge (today birthDate : Date) : Z :=
  let age := fullYear today - fullYear birthDate in
  let monthDiff := month today - month birthDate in
  if (monthDiff <? 0) || ((monthDiff =? 0) && (date today <? date birthDate))
  then age - 1 else age.

(** Calendar order. *)
Definition notAfter (d1 d2 : Date) : Prop :=
  fullYear d1 < fullYear d2
  ∨ (fullYear d1 = fullYear d2
     ∧ (month d1 < month d2 ∨ (month d1 = month d2 ∧ date d1 <= date d2))).

(** The [n]-th anniversary of a date, as calendar fields. *)
Definition anniversary (n : Z) (d : Date) : Date :=
  {| fullYear := fullYear d + n; month := month d; date := date d |}.

End Age.

(** ** Pagination of the list routes *)

Module Pagination.

Record t := {
  currentPage : Z;
  totalPages : Z;
  totalItems : Z;
  hasNext : bool;
  hasPrev : bool
}.

(** [Math.ceil(total / limit)] for integers, [limit] not zero. *)
Definition ceilDiv (total limit : Z) : Z := - ((- total) / limit).

(** The [pagination] object of the history and search routes; [page] and
    [limit] are the numbers the query strings stand for. *)
Definition pagination (page limit total : Z) : t :=
  {| currentPage := page;
     totalPages := ceilDiv total limit;
     totalItems := total;
     hasNext := page <? ceilDiv total limit;
     hasPrev := 1 <? page |}.

(** The documents [find(query).sort(..).limit(limit * 1).skip((page - 1) * limit)]
    returns, of the sorted matching documents: the driver skips, then
    limits. *)
Definition pageOf {A} (page limit : Z) (docs : list A) : list A :=
  take (Z.to_nat limit) (drop (Z.to_nat ((page - 1) * limit)) docs).

(** The pages a client gets by asking for page 1 up to [totalPages]. *)
Definition allPages {A} (limit : Z) (docs : list A) : list (list A) :=
  (λ p : nat, pageOf (Z.of_nat p) limit docs)
    <$> seq 1 (Z.to_nat (ceilDiv (Z.of_nat (length docs)) limit)).

End Pagination.

(** ** [routes/symptoms.js]: submitting symptoms *)

Module SymptomRoute.

(** [o.key = x] on a parsed object: the bindings of [key] take the value,
    and a binding is added at the end when there is none. *)
Definition setField (key : string) (x : JSON.Value)
    (fields : list (string * JSON.Value)) : list (string * JSON.Value) :=
  if existsb (λ kv : string * JSON.Value, String.eqb kv.1 key) fields
  then (λ kv : string * JSON.Value,
          if String.eqb kv.1 key then (kv.1, x) else kv) <$> fields
  else fields ++ [(key, x)].

(** The document handed to [new Symptom(...)]: the report, the assessment
    and the tags.  The [additionalInfo] copied from the request and the
    user document is left out. *)
Record Record_ := {
  symptoms : list Symptom.t;
  aiAssessment : JSON.Value;
  tags : list string
}.

(** [await symptomRecord.save()]: the identifier, or the message of the
    error thrown. *)
Inductive Saved := SavedAs (id : string) | SaveThrows (message : string).

Inductive Reply :=
| BadRequest (errors : list string)              (* 400 *)
| Created (assessment : JSON.Value) (symptomId : string) (* 201 *)
| Unavailable                                    (* 503 *)
| Failed                                         (* 500 *).

(** The [catch] of the handler. *)
Definition onError (message : string) : Reply :=
  if JS.includes message "Unable to analyze symptoms" then Unavailable else Failed.

(** The handler of [POST /check], after [auth] and the limiter: [errors]
    is the outcome of the body validators, [userContext] what the handler
    derives from the user's document and the request, [save] the store.
    Reading [generalAdvice] of [null] throws a [TypeError], whose message
    is not the one the [catch] looks for. *)
Definition check (w : World) (save : Record_ → Saved) (errors : list string)
    (report : list Symptom.t) (userContext : UserContext)
    : M (Reply * option Record_) :=
  match errors with
  | _ :: _ => ret (BadRequest errors, None)
  | [] =>
      bind (AIService.analyzeSymptoms w report userContext)
        (λ aiAssessment,
           match aiAssessment with
           | JSON.Null | JSON.Undefined => ret (Failed, None)
           | _ =>
               let validation :=
                 AIService.validateResponse (JSON.get aiAssessment "generalAdvice") in
               let aiAssessment' :=
                 if AIService.isValid validation then aiAssessment
                 else
                   match aiAssessment with
                   | JSON.Obj fields =>
                       JSON.Obj (setField "generalAdvice"
                                   (AIService.sanitizedResponse validation) fields)
                   | other => other
                   end in
               let symptomRecord :=
                 {| symptoms := report;
                    aiAssessment := aiAssessment';
                    tags := (λ s, JS.toLowerCase (Symptom.name s)) <$> report |} in
               match save symptomRecord with
               | SaveThrows message => ret (onError message, None)
               | SavedAs id => ret (Created aiAssessment' id, Some symptomRecord)
               end
           end)
  end.

End SymptomRoute.

(** ** [routes/symptoms.js], chat router: the other session routes *)

Module SessionRoutes.

Inductive Reply :=
| BadRequest (errors : list string)   (* 400 *)
| NotFound                            (* 404 *)
| Updated (chat : Chat.Summary)       (* 200, 'Chat session updated successfully' *)
| Deleted                             (* 200, 'Chat session deleted successfully' *)
| Fetched (chat : Chat.t)             (* 200 *).

(** The session with this identifier, when it is the user's: the filter
    [{sessionId, userId}] of the three routes below. *)
Definition owned (store : gmap string Chat.t) (sessionId userId : string)
    : option Chat.t :=
  match store !! sessionId with
  | Some chat => if String.eqb (Chat.userId chat) userId then Some chat else None
  | None => None
  end.

(** The handler of [PUT /:sessionId]: [Chat.findOneAndUpdate] with
    [$set: {status}].  The title, which the model of the document leaves
    out, is set along with it. *)
Definition putSession (store : gmap string Chat.t) (errors : list string)
    (sessionId userId : string) (status : Chat.Status)
    : Reply * gmap string Chat.t :=
  match errors with
  | _ :: _ => (BadRequest errors, store)
  | [] =>
      match owned store sessionId userId with
      | None => (NotFound, store)
      | Some chat =>
          let chat' :=
            {| Chat.userId := Chat.userId chat;
               Chat.status := status;
               Chat.messages := Chat.messages chat;
               Chat.context := Chat.context chat;
               Chat.aiInsights := Chat.aiInsights chat |} in
          (Updated (Chat.getSummary chat'), <[sessionId := chat']> store)
      end
  end.

(** The handler of [DELETE /:sessionId]. *)
Definition deleteSession (store : gmap string Chat.t)
    (sessionId userId : string) : Reply * gmap string Chat.t :=
  match owned store sessionId userId with
  | None => (NotFound, store)
  | Some _ => (Deleted, delete sessionId store)
  end.

(** The handler of [GET /:sessionId]. *)
Definition getSession (store : gmap string Chat.t)
    (sessionId userId : string) : Reply :=
  match owned store sessionId userId with
  | None => NotFound
  | Some chat => Fetched chat
  end.

End SessionRoutes.

(** * Properties *)

(** ** The parser on small texts *)

Module JSONFacts.
Import JSON.

Example parse_empty_object : parse "{}" = Some (Obj []).
Proof. reflexivity. Qed.

Example parse_nested :
  parse " [1, [2.5e3, [-0.25, [true, [null, {}]]]]] " =
    Some (Arr [Num 1 0; Arr [Num 25 2; Arr [Num (-25) (-2);
            Arr [Bool true; Arr [Null; Obj []]]]]]).
Proof. reflexivity. Qed.

Example parse_member_order :
  parse ("{" +:+ JS.dq +:+ "a" +:+ JS.dq +:+ ":1," +:+ JS.dq +:+ "a" +:+ JS.dq +:+ ":2}")
    = Some (Obj [("a", Num 1 0); ("a", Num 2 0)]) ∧
  get (Obj [("a", Num 1 0); ("a", Num 2 0)]) "a" = Num 2 0.
Proof. split; reflexivity. Qed.

Example parse_prose : parse "Sure! {} Hope that helps." = None.
Proof. reflexivity. Qed.

Example parse_leading_zero : parse "01" = None.
Proof. reflexivity. Qed.

Example parse_trailing_comma : parse "[1,]" = None.
Proof. reflexivity. Qed.

Example parse_empty_text : parse "" = None.
Proof. reflexivity. Qed.

End JSONFacts.

(** ** Strings *)

Module JSFacts.
Import JS.

Lemma app_cons c a b : String c a +:+ b = String c (a +:+ b).
Proof. reflexivity. Qed.

Lemma app_nil_l a : "" +:+ a = a.
Proof. reflexivity. Qed.

Lemma app_nil_r a : a +:+ "" = a.
Proof. induction a as [|c a IH]; [done|]. by rewrite app_cons, IH. Qed.

Lemma app_assoc a b c : (a +:+ b) +:+ c = a +:+ b +:+ c.
Proof. induction a as [|x a IH]; [done|]. by rewrite !app_cons, IH. Qed.

Lemma strlen_app a b : strlen (a +:+ b) = strlen a + strlen b.
Proof.
  unfold strlen. induction a as [|x a IH]; [done|].
  rewrite app_cons. cbn [String.length]. lia.
Qed.

Lemma strlen_cons c a : strlen (String c a) = 1 + strlen a.
Proof. unfold strlen. cbn [String.length]. lia. Qed.

Lemma strlen_nonneg a : 0 <= strlen a.
Proof. unfold strlen. lia. Qed.

Lemma toLowerCase_app a b :
  toLowerCase (a +:+ b) = toLowerCase a +:+ toLowerCase b.
Proof.
  induction a as [|x a IH]; [done|].
  rewrite app_cons. cbn [toLowerCase]. by rewrite app_cons, IH.
Qed.

(** Lower-casing works letter by letter, so a split of the result is the
    image of a split of the text. *)
Lemma toLowerCase_split s a b :
  toLowerCase s = a +:+ b →
  ∃ s1 s2, s = s1 +:+ s2 ∧ toLowerCase s1 = a ∧ toLowerCase s2 = b.
Proof.
  revert s. induction a as [|x a IH]; intros s Hs.
  - by exists "", s.
  - rewrite app_cons in Hs. destruct s as [|y s]; [done|].
    cbn [toLowerCase] in Hs. injection Hs as Hx Hs.
    destruct (IH s Hs) as (s1 & s2 & -> & H1 & H2).
    exists (String y s1), s2. rewrite app_cons. cbn [toLowerCase].
    by rewrite Hx, H1.
Qed.

Lemma startsWith_spec s p : startsWith s p = true ↔ ∃ rest, s = p +:+ rest.
Proof.
  revert s. induction p as [|a p IH]; intros s.
  - split; [by exists s|by destruct s].
  - destruct s as [|b s]; cbn [startsWith].
    + split; [done|]. by intros [rest Hr].
    + destruct (Ascii.eqb_spec a b) as [->|Hne].
      * rewrite IH. split; intros [rest Hr]; exists rest.
        -- by rewrite app_cons, Hr.
        -- rewrite app_cons in Hr. by injection Hr.
      * split; [done|]. intros [rest Hr]. rewrite app_cons in Hr. congruence.
Qed.

Lemma includes_spec s kw :
  includes s kw = true ↔ ∃ pre post, s = pre +:+ kw +:+ post.
Proof.
  induction s as [|c s IH].
  - cbn [includes]. rewrite orb_false_r, startsWith_spec. split.
    + intros [rest Hr]. by exists "", rest.
    + intros (pre & post & H). destruct pre as [|x pre]; [by exists post|done].
  - cbn [includes]. rewrite orb_true_iff, startsWith_spec, IH. split.
    + intros [[rest Hr]|(pre & post & Hr)].
      * by exists "", rest.
      * exists (String c pre), post. by rewrite app_cons, Hr.
    + intros (pre & post & Hr). destruct pre as [|x pre].
      * left. by exists post.
      * right. rewrite app_cons in Hr. injection Hr as _ Hr. by exists pre, post.
Qed.

(** [text.toLowerCase().includes(kw)] for a lower-case [kw] is containment
    up to case. *)
Lemma includes_lower_spec s kw :
  includes (toLowerCase s) (toLowerCase kw) = true ↔ containsIgnoringCase s kw.
Proof.
  rewrite includes_spec. split.
  - intros (pre & post & H).
    apply toLowerCase_split in H as (s1 & s23 & -> & _ & H).
    apply toLowerCase_split in H as (s2 & s3 & -> & H2 & _).
    by exists s1, s2, s3.
  - intros (pre & mid & post & -> & H).
    exists (toLowerCase pre), (toLowerCase post).
    by rewrite !toLowerCase_app, H.
Qed.

Lemma includesAny_spec s kws :
  includesAny s kws = true ↔ ∃ kw, kw ∈ kws ∧ includes s kw = true.
Proof.
  unfold includesAny. rewrite existsb_exists.
  split; intros (kw & Hin & H); exists kw; by rewrite ?list_elem_of_In in *.
Qed.

(** Containing a phrase is containing each part of it. *)
Lemma containsIgnoringCase_part s p1 p2 p3 :
  containsIgnoringCase s (p1 +:+ p2 +:+ p3) → containsIgnoringCase s p2.
Proof.
  intros (pre & mid & post & -> & H). rewrite !toLowerCase_app in H.
  apply toLowerCase_split in H as (m1 & m23 & -> & _ & H).
  apply toLowerCase_split in H as (m2 & m3 & -> & H2 & _).
  exists (pre +:+ m1), m2, (m3 +:+ post). by rewrite !app_assoc.
Qed.

Lemma indexOf_lower_bound s c : -1 <= indexOf s c.
Proof.
  induction s as [|a s IH]; cbn [indexOf]; [done|].
  destruct (Ascii.eqb a c); [done|]. destruct (indexOf s c =? -1); lia.
Qed.

Lemma indexOf_absent_app pre c rest :
  indexOf pre c = -1 → indexOf (pre +:+ String c rest) c = strlen pre.
Proof.
  induction pre as [|a pre IH]; intros Habs.
  - rewrite app_nil_l. cbn [indexOf]. by rewrite Ascii.eqb_refl.
  - rewrite app_cons, strlen_cons. cbn [indexOf] in *.
    destruct (Ascii.eqb a c); [done|].
    pose proof (indexOf_lower_bound pre c).
    destruct (indexOf pre c =? -1) eqn:E; [|lia].
    apply Z.eqb_eq in E. rewrite (IH E).
    pose proof (strlen_nonneg pre).
    destruct (strlen pre =? -1) eqn:E'; lia.
Qed.

Lemma lastIndexOf_app_absent s c post :
  lastIndexOf post c = -1 → lastIndexOf (s +:+ String c post) c = strlen s.
Proof.
  intros Habs. induction s as [|a s IH].
  - rewrite app_nil_l. cbn [lastIndexOf]. by rewrite Habs, Ascii.eqb_refl.
  - rewrite app_cons, strlen_cons. cbn [lastIndexOf]. rewrite IH.
    pose proof (strlen_nonneg s).
    destruct (strlen s =? -1) eqn:E'; lia.
Qed.

Lemma substring_skip pre n s :
  substring (String.length pre) n (pre +:+ s) = substring 0 n s.
Proof. induction pre as [|a pre IH]; [done|]. by rewrite app_cons. Qed.

Lemma substring_prefix mid post :
  substring 0 (String.length mid) (mid +:+ post) = mid.
Proof.
  induction mid as [|a mid IH].
  - by destruct post.
  - rewrite app_cons. cbn [String.length substring]. by rewrite IH.
Qed.

Lemma slice_middle pre mid post :
  slice (pre +:+ mid +:+ post) (strlen pre) (strlen pre + strlen mid) = mid.
Proof.
  unfold slice. rewrite !strlen_app.
  pose proof (strlen_nonneg pre). pose proof (strlen_nonneg mid).
  pose proof (strlen_nonneg post).
  destruct (strlen pre <? 0) eqn:E1; [lia|].
  destruct (strlen pre + strlen mid <? 0) eqn:E2; [lia|].
  rewrite Z.min_l, Z.min_l, Z.max_l by lia.
  replace (strlen pre + strlen mid - strlen pre) with (strlen mid) by lia.
  unfold strlen. rewrite !Nat2Z.id.
  by rewrite substring_skip, substring_prefix.
Qed.

End JSFacts.

(** ** The limiter *)

Module LimiterFacts.
Import Limiter.

Lemma limiter_authenticated maxActions windowMs userId now
    (m : gmap string (list Z)) :
  let valid := filter (λ time, now - time < windowMs) (default [] (m !! userId)) in
  userActionLimiter maxActions windowMs (Some userId) now m =
    if bool_decide (Z.of_nat (length valid) >= maxActions)
    then (Status429, <[userId := valid]> m)
    else (Next, <[userId := valid ++ [now]]> m).
Proof.
  unfold userActionLimiter. destruct (m !! userId) as [l|] eqn:E; simpl.
  - rewrite E. simpl. by rewrite insert_insert_eq.
  - rewrite lookup_insert_eq. simpl. by rewrite !insert_insert_eq.
Qed.

Lemma limiter_other_key maxActions windowMs user userId now
    (m : gmap string (list Z)) :
  user ≠ Some userId →
  (userActionLimiter maxActions windowMs user now m).2 !! userId = m !! userId.
Proof.
  intros Hne. destruct user as [u'|]; [|done].
  rewrite limiter_authenticated. simpl.
  assert (u' ≠ userId) by congruence.
  case_bool_decide; simpl; by rewrite lookup_insert_ne.
Qed.

Lemma serve_cons maxActions windowMs user now rest (m : gmap string (list Z)) :
  serve maxActions windowMs ((user, now) :: rest) m =
    let r := userActionLimiter maxActions windowMs user now m in
    let rs := serve maxActions windowMs rest r.2 in
    (r.1 :: rs.1, rs.2).
Proof.
  simpl. destruct (userActionLimiter _ _ _ _ _) as [v m']. simpl.
  by destruct (serve _ _ _ _).
Qed.

Lemma serve_app maxActions windowMs r1 r2 (m : gmap string (list Z)) :
  serve maxActions windowMs (r1 ++ r2) m =
    let s1 := serve maxActions windowMs r1 m in
    let s2 := serve maxActions windowMs r2 s1.2 in
    (s1.1 ++ s2.1, s2.2).
Proof.
  revert m. induction r1 as [|[user now] r1 IH]; intros m.
  - simpl. by destruct (serve _ _ r2 m).
  - rewrite <- app_comm_cons, !serve_cons. cbn [fst snd]. by rewrite IH.
Qed.

Lemma filter_length_mono (P Q : Z → Prop) `{∀ x, Decision (P x)}
    `{∀ x, Decision (Q x)} (l : list Z) :
  (∀ x, P x → Q x) → (length (filter P l) <= length (filter Q l))%nat.
Proof.
  intros HPQ. induction l as [|x l IH]; [done|].
  rewrite !filter_cons. destruct (decide (P x)) as [HP|HP].
  - rewrite decide_True by auto. simpl. lia.
  - destruct (decide (Q x)); simpl; lia.
Qed.

Lemma admitted_cons userId user now rest v vs :
  admitted userId ((user, now) :: rest) (v :: vs) =
    match v with
    | Next => if bool_decide (user = Some userId) then [now] else []
    | Status429 => []
    end ++ admitted userId rest vs.
Proof. simpl. destruct v; [|done]. by case_bool_decide. Qed.

Section Window.

(** One limiter and one of its users. *)
Context (maxActions windowMs : Z) (userId : string).

Lemma tracks_later last now A l :
  last <= now → tracks windowMs last A l → tracks windowMs now A l.
Proof. intros Hle Ht c Hc. apply Ht. lia. Qed.

Lemma tracks_prune now A l :
  tracks windowMs now A l →
  tracks windowMs now A (filter (λ time, now - time < windowMs) l).
Proof.
  intros Ht c Hc. rewrite (Ht c Hc), list_filter_filter.
  apply list_filter_iff. intros t. lia.
Qed.

Lemma tracks_push now A l :
  tracks windowMs now A l → tracks windowMs now (A ++ [now]) (l ++ [now]).
Proof. intros Ht c Hc. by rewrite !filter_app, (Ht c Hc). Qed.

Lemma inWindow_app T A B :
  inWindow windowMs T (A ++ B) = (inWindow windowMs T A + inWindow windowMs T B)%nat.
Proof. unfold inWindow. by rewrite filter_app, length_app. Qed.

(** Admitting [now] keeps every window within the limit, because the
    pruned list that was counted holds every admitted stamp younger than
    [now - windowMs]. *)
Lemma window_after_push now A l :
  tracks windowMs now A l →
  Z.of_nat (length (filter (λ time, now - time < windowMs) l)) < maxActions →
  (∀ T, Z.of_nat (inWindow windowMs T A) <= Z.max 0 maxActions) →
  ∀ T, Z.of_nat (inWindow windowMs T (A ++ [now])) <= Z.max 0 maxActions.
Proof.
  intros Ht Hlen HA T. rewrite inWindow_app.
  unfold inWindow at 2. rewrite filter_cons, filter_nil.
  destruct (decide (T - windowMs < now ∧ now <= T)) as [[H1 H2]|_]; simpl.
  - assert (Z.of_nat (inWindow windowMs T A) <=
            Z.of_nat (length (filter (λ time, now - time < windowMs) l))) as Hle.
    { rewrite (list_filter_iff (λ time, now - time < windowMs)
                 (λ t, now - windowMs < t)) by (intros; lia).
      rewrite <- (Ht (now - windowMs)) by lia.
      apply inj_le, filter_length_mono. intros; lia. }
    lia.
  - specialize (HA T). lia.
Qed.

Lemma serve_window reqs :
  ∀ last A (m : gmap string (list Z)),
    clockFrom last reqs →
    tracks windowMs last A (default [] (m !! userId)) →
    (∀ T, Z.of_nat (inWindow windowMs T A) <= Z.max 0 maxActions) →
    ∀ T, Z.of_nat (inWindow windowMs T
           (A ++ admitted userId reqs (serve maxActions windowMs reqs m).1))
         <= Z.max 0 maxActions.
Proof.
  induction reqs as [|[user now] rest IH]; intros last A m Hclk Ht HA T.
  { simpl. rewrite app_nil_r. apply HA. }
  destruct Hclk as [Hle Hclk]. rewrite serve_cons. cbn [fst snd].
  rewrite admitted_cons, app_assoc.
  apply (tracks_later _ now) in Ht; [|done].
  destruct (decide (user = Some userId)) as [->|Hne].
  - rewrite limiter_authenticated.
    set (valid := filter _ _).
    case_bool_decide as Hfull; cbn [fst snd].
    + rewrite app_nil_r. eapply IH; [done| |done].
      rewrite lookup_insert_eq. simpl. by apply tracks_prune.
    + rewrite bool_decide_eq_true_2 by done.
      eapply IH; [done| |].
      * rewrite lookup_insert_eq. simpl. by apply tracks_push, tracks_prune.
      * eapply window_after_push; [done| |done]. fold valid. lia.
  - rewrite bool_decide_eq_false_2 by done.
    replace (A ++ match (userActionLimiter maxActions windowMs user now m).1 with
                  | Next => [] | Status429 => [] end) with A
      by (destruct (_.1); by rewrite app_nil_r).
    eapply IH; [done| |done]. by rewrite limiter_other_key.
Qed.

(** While fewer than [maxActions] stamps are stored, every call of the
    user is admitted. *)
Lemma serve_under_limit ts :
  ∀ m : gmap string (list Z),
    Z.of_nat (length (default [] (m !! userId)) + length ts) <= maxActions →
    (serve maxActions windowMs ((λ t, (Some userId, t)) <$> ts) m).1 =
      replicate (length ts) Next.
Proof.
  induction ts as [|t ts IH]; intros m Hlen; [done|].
  rewrite fmap_cons, serve_cons. cbn [fst snd].
  rewrite limiter_authenticated.
  set (valid := filter _ _).
  assert (length valid <= length (default [] (m !! userId)))%nat
    by apply length_filter.
  simpl in Hlen. rewrite bool_decide_eq_false_2 by lia. cbn [fst snd].
  simpl. f_equal. apply IH. rewrite lookup_insert_eq. simpl.
  rewrite length_app. simpl. lia.
Qed.

(** The bookkeeping invariant survives any run with a monotone clock. *)
Lemma serve_tracks reqs :
  ∀ last A (m : gmap string (list Z)) c,
    clockFrom last reqs →
    tracks windowMs last A (default [] (m !! userId)) →
    last - windowMs <= c →
    Forall (λ r : Request, r.2 - windowMs <= c) reqs →
    filter (λ t, c < t)
      (A ++ admitted userId reqs (serve maxActions windowMs reqs m).1) =
    filter (λ t, c < t)
      (default [] ((serve maxActions windowMs reqs m).2 !! userId)).
Proof.
  induction reqs as [|[user now] rest IH]; intros last A m c Hclk Ht Hc Hall.
  { simpl. rewrite app_nil_r. by apply Ht. }
  destruct Hclk as [Hle Hclk]. apply Forall_cons in Hall as [Hnow Hall].
  simpl in Hnow. rewrite serve_cons. cbn [fst snd].
  rewrite admitted_cons, app_assoc.
  apply (tracks_later _ now) in Ht; [|done].
  destruct (decide (user = Some userId)) as [->|Hne].
  - rewrite limiter_authenticated.
    rewrite (bool_decide_eq_true_2 (Some userId = Some userId)) by done.
    case_bool_decide as Hfull; cbn [fst snd].
    + rewrite app_nil_r. eapply IH; [done| |done|done].
      rewrite lookup_insert_eq. simpl. by apply tracks_prune.
    + eapply IH; [done| |done|done].
      rewrite lookup_insert_eq. simpl. by apply tracks_push, tracks_prune.
  - rewrite bool_decide_eq_false_2 by done.
    replace (A ++ match (userActionLimiter maxActions windowMs user now m).1 with
                  | Next => [] | Status429 => [] end) with A
      by (destruct (_.1); by rewrite app_nil_r).
    eapply IH; [done| |done|done]. by rewrite limiter_other_key.
Qed.

Lemma tracks_nil last : tracks windowMs last [] [].
Proof. by intros c _. Qed.

Lemma serve_window_fresh reqs T :
  clockMonotone reqs →
  Z.of_nat (inWindow windowMs T
    (admitted userId reqs (serve maxActions windowMs reqs ∅).1))
  <= Z.max 0 maxActions.
Proof.
  intros Hclk. destruct reqs as [|[user now] rest].
  { simpl. unfold inWindow. simpl. lia. }
  change (admitted userId ((user, now) :: rest) ?v) with
    ([] ++ admitted userId ((user, now) :: rest) v).
  apply (serve_window _ now [] ∅).
  - split; [lia|done].
  - rewrite lookup_empty. apply tracks_nil.
  - intros T'. unfold inWindow. simpl. lia.
Qed.

End Window.

Lemma six_calls userId t1 t2 t3 t4 t5 t6 :
  t1 <= t2 → t2 <= t3 → t3 <= t4 → t4 <= t5 → t5 <= t6 →
  (serve 5 60000 (sixCalls userId t1 t2 t3 t4 t5 t6) ∅).1 =
    [Next; Next; Next; Next; Next;
     if bool_decide (t6 - t1 < 60000) then Status429 else Next].
Proof.
  intros H12 H23 H34 H45 H56.
  change (sixCalls userId t1 t2 t3 t4 t5 t6) with
    (((λ t, (Some userId, t)) <$> [t1; t2; t3; t4; t5]) ++ [(Some userId, t6)]).
  rewrite serve_app. cbn [fst snd].
  pose proof (serve_under_limit 5 60000 userId [t1; t2; t3; t4; t5] ∅) as Hfive.
  rewrite lookup_empty in Hfive. specialize (Hfive ltac:(simpl; lia)).
  pose proof (serve_tracks 5 60000 userId
                ((λ t, (Some userId, t)) <$> [t1; t2; t3; t4; t5])
                t1 [] ∅ (t6 - 60000)) as Htr.
  rewrite Hfive in *. clear Hfive.
  set (m5 := (serve 5 60000 _ ∅).2) in *.
  assert (filter (λ t, t6 - 60000 < t) [t1; t2; t3; t4; t5] =
          filter (λ t, t6 - 60000 < t) (default [] (m5 !! userId))) as Hl.
  { rewrite <- Htr.
    - simpl. by rewrite !bool_decide_eq_true_2.
    - simpl. lia.
    - intros c _. by rewrite lookup_empty.
    - lia.
    - repeat constructor; simpl; lia. }
  rewrite serve_cons. cbn [fst snd serve]. rewrite limiter_authenticated.
  rewrite (list_filter_iff (λ time, t6 - time < 60000) (λ t, t6 - 60000 < t))
    by (intros; lia).
  rewrite <- Hl. clear Hl Htr.
  assert (Z.of_nat (length (filter (λ t, t6 - 60000 < t) [t1; t2; t3; t4; t5])) >= 5
          ↔ t6 - t1 < 60000) as Hiff.
  { rewrite !filter_cons, filter_nil.
    repeat case_decide; cbn [length]; lia. }
  cbn [replicate length app]. do 5 f_equal.
  do 2 case_bool_decide; cbn [fst]; tauto.
Qed.

(** C2 (as amended).  For one key, a call keeps exactly the recorded
    stamps [t] with [now - t < windowMs] (a stamp exactly [windowMs] old
    is dropped too); it answers 429 and stores the pruned list when at
    least [maxActions] stamps are left, and otherwise stores the pruned
    list with [now] appended and lets the request through.  Hence, on a
    fresh limiter and with a clock that does not run backwards, no
    half-open window [(T - windowMs, T]] holds more than [maxActions]
    admitted calls of a user, and with [userActionLimiter(5, 60000)] five
    calls are let through and the sixth is refused exactly as long as the
    first is less than 60000 ms old. *)
Theorem limiter_sliding_window maxActions windowMs userId now
    (m : gmap string (list Z)) reqs T t1 t2 t3 t4 t5 t6 :
  clockMonotone reqs →
  t1 <= t2 → t2 <= t3 → t3 <= t4 → t4 <= t5 → t5 <= t6 →
  let stored := default [] (m !! userId) in
  let valid := filter (λ time, now - time < windowMs) stored in
  let r := userActionLimiter maxActions windowMs (Some userId) now m in
  ((∀ t, t ∈ valid ↔ t ∈ stored ∧ now - windowMs < t) ∧
   (Z.of_nat (length valid) >= maxActions →
      r = (Status429, <[userId := valid]> m)) ∧
   (Z.of_nat (length valid) < maxActions →
      r = (Next, <[userId := valid ++ [now]]> m))) ∧
  Z.of_nat (inWindow windowMs T
    (admitted userId reqs (serve maxActions windowMs reqs ∅).1))
    <= Z.max 0 maxActions ∧
  (serve 5 60000 (sixCalls userId t1 t2 t3 t4 t5 t6) ∅).1 =
    [Next; Next; Next; Next; Next;
     if bool_decide (t6 - t1 < 60000) then Status429 else Next].
Proof.
  intros Hclk H12 H23 H34 H45 H56 stored valid r.
  split; [split; [|split] | split].
  - intros t. unfold valid. rewrite list_elem_of_filter.
    split; intros [? ?]; split; try done; lia.
  - intros Hfull. unfold r. rewrite limiter_authenticated.
    by rewrite bool_decide_eq_true_2.
  - intros Hroom. unfold r. rewrite limiter_authenticated.
    rewrite bool_decide_eq_false_2; [done|]. fold stored valid. lia.
  - by apply serve_window_fresh.
  - by apply six_calls.
Qed.

Lemma limiter_sliding_window_witness :
  let reqs := sixCalls "u1" 0 10 20 30 40 59999 in
  Z.of_nat (inWindow 60000 59999 (admitted "u1" reqs (serve 5 60000 reqs ∅).1)) <= 5 ∧
  (serve 5 60000 reqs ∅).1 = [Next; Next; Next; Next; Next; Status429] ∧
  (serve 5 60000 (sixCalls "u1" 0 10 20 30 40 60000) ∅).1 =
    [Next; Next; Next; Next; Next; Next].
Proof.
  intros reqs.
  destruct (limiter_sliding_window 5 60000 "u1" 59999 ∅ reqs 59999
              0 10 20 30 40 59999) as (_ & Hwindow & Hsix);
    [simpl; lia | lia | lia | lia | lia | lia |].
  destruct (limiter_sliding_window 5 60000 "u1" 60000 ∅ reqs 60000
              0 10 20 30 40 60000) as (_ & _ & Haged);
    [simpl; lia | lia | lia | lia | lia | lia |].
  split; [exact Hwindow|]. split; [exact Hsix | exact Haged].
Defined.

(** C2 as worded fails at the boundary: with five stamps stored and the
    oldest exactly 60000 ms old, the source drops the oldest and admits
    the call, while dropping only the stamps older than
    [now - windowMs] keeps all five and rejects it. *)
Lemma limiter_boundary_counterexample : ¬ follows_spec_wording.
Proof.
  intros H.
  destruct (H 5 60000 "u1" 60000 {["u1" := [0; 10; 20; 30; 40]]}) as [[Hs _] _].
  rewrite limiter_authenticated, lookup_singleton_eq in Hs.
  vm_compute in Hs. by specialize (Hs eq_refl).
Qed.

(** C10.  A request without an authenticated user is passed on and the
    map is returned as it was; in any run, taking such a request out
    changes neither the final map nor the verdicts of the other
    requests. *)
Theorem limiter_unauthenticated maxActions windowMs now
    (m : gmap string (list Z)) before after :
  userActionLimiter maxActions windowMs None now m = (Next, m) ∧
  let s := serve maxActions windowMs (before ++ (None, now) :: after) m in
  let s' := serve maxActions windowMs (before ++ after) m in
  s.2 = s'.2 ∧
  s.1 = take (length before) s'.1 ++ Next :: drop (length before) s'.1.
Proof.
  split; [done|]. cbv zeta. rewrite !serve_app. cbv zeta.
  rewrite serve_cons. cbn [fst snd userActionLimiter]. split; [done|].
  assert (length (serve maxActions windowMs before m).1 = length before) as Hlen.
  { clear. revert m. induction before as [|[u t] b IH]; intros m; [done|].
    rewrite serve_cons. simpl. by rewrite IH. }
  rewrite take_app_length', drop_app_length' by done. done.
Qed.

End LimiterFacts.

(** ** The heuristic assessor *)

Module HeuristicFacts.
Import Symptom AIService.

Lemma severityScore_range s : 1 <= severityScore s <= 3.
Proof. unfold severityScore. destruct (severity s) as [[]|]; lia. Qed.

Lemma fold_total l a :
  fold_left (λ sum s, sum + severityScore s) l a =
  a + foldr Z.add 0 (severityScore <$> l).
Proof.
  revert a. induction l as [|s l IH]; intros a; [simpl; lia|].
  rewrite fmap_cons. cbn [fold_left foldr]. rewrite IH. lia.
Qed.

Lemma totalSeverity_sum l :
  totalSeverity l = foldr Z.add 0 (severityScore <$> l).
Proof. unfold totalSeverity. rewrite fold_total. lia. Qed.

Lemma totalSeverity_nonneg l : 0 <= totalSeverity l.
Proof.
  rewrite totalSeverity_sum. induction l as [|s l IH]; [done|].
  rewrite fmap_cons. cbn [foldr].
  pose proof (severityScore_range s). lia.
Qed.

(** The folded maximum dominates its start value and every score, and is
    one of them. *)
Lemma fold_max l a :
  let m := fold_left (λ max s, Z.max max (severityScore s)) l a in
  a <= m ∧ (∀ s, s ∈ l → severityScore s <= m) ∧
  (m = a ∨ ∃ s, s ∈ l ∧ severityScore s = m).
Proof.
  cbv zeta. revert a. induction l as [|x l IH]; intros a; cbn [fold_left].
  - split; [done|]. split; [|by left]. intros s Hs. by apply elem_of_nil in Hs.
  - destruct (IH (Z.max a (severityScore x))) as (H1 & H2 & H3).
    split; [lia|]. split.
    + intros s [->|Hs]%elem_of_cons; [lia|by apply H2].
    + destruct H3 as [H3|(s & Hs & H3)].
      * destruct (Z.max_spec a (severityScore x)) as [[_ Hm]|[_ Hm]].
        -- right. exists x. split; [left|]. lia.
        -- left. lia.
      * right. exists s. split; [by right|done].
Qed.

Lemma maxSeverity_range l : 1 <= maxSeverity l <= 3.
Proof.
  destruct (fold_max l 1) as (H1 & _ & [H3|(s & _ & H3)]); fold (maxSeverity l) in *.
  - lia.
  - pose proof (severityScore_range s). lia.
Qed.

Lemma maxSeverity_upper l s : s ∈ l → severityScore s <= maxSeverity l.
Proof. destruct (fold_max l 1) as (_ & H2 & _). apply H2. Qed.

Lemma maxSeverity_attained l :
  l ≠ [] → ∃ s, s ∈ l ∧ severityScore s = maxSeverity l.
Proof.
  intros Hne. destruct (fold_max l 1) as (_ & H2 & [H3|H3]); [|done].
  fold (maxSeverity l) in *. destruct l as [|s l]; [done|].
  exists s. split; [left|].
  pose proof (H2 s ltac:(left)). pose proof (severityScore_range s). lia.
Qed.

Lemma arrayIncludes_spec (l : list string) m :
  JS.arrayIncludes l m = true ↔ m ∈ l.
Proof.
  unfold JS.arrayIncludes. rewrite existsb_exists. split.
  - intros (x & Hin & ->%String.eqb_eq). by apply list_elem_of_In.
  - intros Hin. exists m. split; [by apply list_elem_of_In|apply String.eqb_refl].
Qed.

Lemma ruleMatches_spec l r :
  ruleMatches l r = true ↔ ∃ m, m ∈ Rule.match_ r ∧ m ∈ l.
Proof.
  unfold ruleMatches. rewrite existsb_exists.
  split; intros (m & H1 & H2); exists m.
  - split; [by apply list_elem_of_In|by apply arrayIncludes_spec].
  - split; [by apply list_elem_of_In|by apply arrayIncludes_spec].
Qed.

Lemma matched_spec symptoms r :
  r ∈ matched symptoms ↔
  r ∈ rules ∧ ∃ m, m ∈ Rule.match_ r ∧ m ∈ names symptoms.
Proof.
  unfold matched. by rewrite list_elem_of_In, filter_In, <- list_elem_of_In,
    ruleMatches_spec.
Qed.

Lemma filter_sublist_of {A} (f : A → bool) (l : list A) :
  sublist (List.filter f l) l.
Proof.
  induction l as [|x l IH]; simpl; [constructor|].
  destruct (f x); by constructor.
Qed.

Lemma matched_in_table_order symptoms : sublist (matched symptoms) rules.
Proof. apply filter_sublist_of. Qed.

Lemma baseConditions_riskBase symptoms r :
  r ∈ baseConditions symptoms → 15 <= Rule.riskBase r <= 50.
Proof.
  unfold baseConditions. intros Hr.
  assert (r ∈ rules → 15 <= Rule.riskBase r <= 50) as Htable.
  { unfold rules. rewrite !elem_of_cons, elem_of_nil.
    intros H; repeat (destruct H as [->|H]; [simpl; lia|]); done. }
  destruct (matched symptoms) as [|r0 rest] eqn:E.
  - apply list_elem_of_singleton in Hr as ->. simpl. lia.
  - apply Htable. rewrite <- E in Hr. by apply matched_spec in Hr as [? _].
Qed.

Lemma baseConditions_nonempty symptoms : baseConditions symptoms ≠ [].
Proof. unfold baseConditions. by destruct (matched symptoms). Qed.

Lemma possibleConditions_lookup symptoms userContext k c :
  Assessment.possibleConditions (ruleBasedAssessment symptoms userContext) !! k
    = Some c →
  (k < 3)%nat ∧
  ∃ r, baseConditions symptoms !! k = Some r ∧ c = toCondition symptoms k r.
Proof.
  cbn [ruleBasedAssessment Assessment.possibleConditions].
  rewrite list_lookup_imap. intros Hk.
  destruct (take 3 (baseConditions symptoms) !! k) as [r|] eqn:E; [|done].
  injection Hk as <-. apply lookup_take_Some in E as [E ?]. eauto.
Qed.

Example heuristic_fever :
  Assessment.possibleConditions (ruleBasedAssessment feverReport noContext) =
    [ {| Condition.condition := "Viral respiratory infection";
         Condition.probability := 50;
         Condition.confidence := 56;
         Condition.description :=
           "Estimated from reported symptoms using heuristic rules.";
         Condition.symptoms := ["fever"];
         Condition.riskLevel := "medium" |} ].
Proof. reflexivity. Qed.

Example heuristic_four_matches :
  let report :=
    [ Symptom.Build_t "Cough" (Some severe) None None;
      Symptom.Build_t "nausea" (Some mild) None None;
      Symptom.Build_t "Chest pain" None None None;
      Symptom.Build_t "FATIGUE" (Some moderate) None None ] in
  Rule.condition <$> matched report =
    [ "Viral respiratory infection"; "Migraine";
      "Cardiac or musculoskeletal cause"; "Fatigue (multifactorial)" ] ∧
  (λ c, (Condition.condition c, Condition.probability c,
         Condition.confidence c, Condition.riskLevel c))
    <$> Assessment.possibleConditions (ruleBasedAssessment report noContext) =
    [ ("Viral respiratory infection", 60, 90, "medium");
      ("Migraine", 60, 90, "medium");
      ("Cardiac or musculoskeletal cause", 90, 86, "high") ].
Proof. split; reflexivity. Qed.

Example heuristic_no_match :
  (λ c, (Condition.condition c, Condition.probability c,
         Condition.confidence c, Condition.riskLevel c))
    <$> Assessment.possibleConditions (ruleBasedAssessment [] noContext) =
    [ ("Non-specific presentation", 25, 40, "low") ].
Proof. reflexivity. Qed.

(** C3.  Severities score 1, 2 and 3, [totalSeverity] is the sum of the
    scores and [maxSeverity] their maximum; the rules that match are kept
    in the order of the table; the first three of them become the
    conditions, and the condition at rank [k] has probability
    [min(90, riskBase + maxSeverity*10 + k*5)], confidence
    [min(90, 40 + totalSeverity*8 - k*5)] and risk level high from 70,
    medium from 45 and low below. *)
Theorem heuristic_conditions symptoms userContext :
  let total := totalSeverity symptoms in
  let max := maxSeverity symptoms in
  let conds :=
    Assessment.possibleConditions (ruleBasedAssessment symptoms userContext) in
  (∀ name duration description,
     let score sev := severityScore (Symptom.Build_t name sev duration description) in
     score (Some mild) = 1 ∧ score (Some moderate) = 2 ∧ score (Some severe) = 3) ∧
  total = foldr Z.add 0 (severityScore <$> symptoms) ∧
  (∀ s, s ∈ symptoms → severityScore s <= max) ∧
  (symptoms ≠ [] → ∃ s, s ∈ symptoms ∧ severityScore s = max) ∧
  sublist (matched symptoms) rules ∧
  (∀ r, r ∈ matched symptoms ↔
        r ∈ rules ∧ ∃ m, m ∈ Rule.match_ r ∧ m ∈ names symptoms) ∧
  (matched symptoms ≠ [] → baseConditions symptoms = matched symptoms) ∧
  length conds = Nat.min 3 (length (baseConditions symptoms)) ∧
  (∀ k c, conds !! k = Some c →
     ∃ r, baseConditions symptoms !! k = Some r ∧
       Condition.condition c = Rule.condition r ∧
       Condition.probability c =
         Z.min 90 (Rule.riskBase r + max * 10 + Z.of_nat k * 5) ∧
       Condition.confidence c = Z.min 90 (40 + total * 8 - Z.of_nat k * 5) ∧
       Condition.riskLevel c =
         if decide (70 <= Condition.probability c) then "high"
         else if decide (45 <= Condition.probability c) then "medium"
         else "low").
Proof.
  intros total max conds.
  split; [done|].
  split; [apply totalSeverity_sum|].
  split; [apply maxSeverity_upper|].
  split; [apply maxSeverity_attained|].
  split; [apply matched_in_table_order|].
  split; [apply matched_spec|].
  split. { unfold baseConditions. by destruct (matched symptoms). }
  split. { unfold conds. cbn. by rewrite length_imap, length_take. }
  intros k c Hk. apply possibleConditions_lookup in Hk as (_ & r & Hr & ->).
  exists r. split; [done|]. cbn. repeat split.
  fold max total. set (p := Z.min 90 _).
  destruct (Z.leb_spec 70 p), (Z.leb_spec 45 p);
    repeat case_decide; try lia; done.
Qed.

Lemma heuristic_conditions_witness :
  let symptoms :=
    [ Symptom.Build_t "Chest Pain" (Some severe) None None;
      Symptom.Build_t "Fatigue" (Some mild) None None ] in
  (∃ s, s ∈ symptoms ∧ severityScore s = maxSeverity symptoms) ∧
  baseConditions symptoms = matched symptoms.
Proof.
  intros symptoms.
  destruct (heuristic_conditions symptoms (Build_UserContext None None None None None None))
    as (_ & _ & _ & Hmax & _ & _ & Hbase & _).
  split; [by apply Hmax|]. apply Hbase. by vm_compute.
Defined.

End HeuristicFacts.

(** ** The model gateway and the response validator *)

Module ServiceFacts.
Import Symptom AIService.

Lemma complete_fallback response :
  complete (toJS (parseFallbackResponse response)) = true.
Proof. reflexivity. Qed.

Lemma inPercentRange_int n : 0 <= n <= 100 → inPercentRange (JSON.Num n 0) = true.
Proof.
  intros Hn. unfold inPercentRange. cbn [Z.leb Z.compare].
  rewrite Z.pow_0_r, Z.mul_1_r.
  apply andb_true_iff; split; apply Z.leb_le; lia.
Qed.

Lemma complete_toJS (a : Assessment.t) :
  Assessment.possibleConditions a ≠ [] →
  (∀ c, c ∈ Assessment.possibleConditions a →
        0 <= Condition.probability c <= 100 ∧ 0 <= Condition.confidence c <= 100) →
  complete (toJS a) = true.
Proof.
  intros Hne Hall. unfold complete, toJS.
  cbn [JSON.get JSON.lookup String.eqb Ascii.eqb Bool.eqb].
  destruct (Assessment.possibleConditions a) as [|c cs]; [done|].
  rewrite fmap_cons, <- (fmap_cons conditionToJS c cs).
  apply forallb_forall. intros v Hv.
  apply list_elem_of_In, list_elem_of_fmap in Hv as (c' & -> & Hc).
  destruct (Hall c' Hc) as [Hp Hq]. unfold conditionToJS, JSON.int.
  cbn [JSON.get JSON.lookup String.eqb Ascii.eqb Bool.eqb].
  by rewrite !inPercentRange_int.
Qed.

Lemma complete_heuristic symptoms userContext :
  complete (toJS (ruleBasedAssessment symptoms userContext)) = true.
Proof.
  apply complete_toJS.
  - intros E. apply (f_equal length) in E. revert E.
    cbn. rewrite length_imap, length_take.
    pose proof (HeuristicFacts.baseConditions_nonempty symptoms).
    destruct (baseConditions symptoms); [done|simpl; lia].
  - intros c Hc. apply list_elem_of_lookup in Hc as [k Hk].
    apply HeuristicFacts.possibleConditions_lookup in Hk as (Hk & r & Hr & ->).
    assert (r ∈ baseConditions symptoms) as Hin
      by (apply list_elem_of_lookup; eauto).
    apply HeuristicFacts.baseConditions_riskBase in Hin.
    pose proof (HeuristicFacts.maxSeverity_range symptoms).
    pose proof (HeuristicFacts.totalSeverity_nonneg symptoms).
    cbn [toCondition Condition.probability Condition.confidence]. lia.
Qed.

(** C1 (as amended).  [analyzeSymptoms] always returns.  When the provider
    was asked and its text parses as JSON, as a whole or between its
    outermost braces, the result is the parsed value as it is; in every
    other case (no credential, a provider error, text that does not parse)
    the result has at least one possible condition and all probabilities
    and confidences are between 0 and 100. *)
Theorem analyzeSymptoms_result w symptoms userContext log :
  let r := (analyzeSymptoms w symptoms userContext log).1 in
  match modelJSON w symptoms userContext with
  | Some v => r = v
  | None => complete r = true
  end.
Proof.
  unfold analyzeSymptoms, modelJSON, bind, create, ret. cbv zeta.
  destruct (orElse (GROQ_API_KEY w) "") as [|c key]; cbn [fst].
  { apply complete_heuristic. }
  destruct (groq w _) as [|content]; cbn [fst].
  { apply complete_heuristic. }
  destruct (JSON.parse (orElse content "")) as [v|]; cbn [fst]; [done|].
  destruct (parseSlice (orElse content "")) as [v|]; cbn [fst]; [done|].
  apply complete_fallback.
Qed.

(** C1 as worded fails when the provider answers with JSON that is not an
    assessment: for the reply [{}] the result is the empty object, which
    has no possible condition. *)
Lemma analyzeSymptoms_unvalidated_counterexample : ¬ always_complete.
Proof.
  intros H. specialize (H (answering "{}") feverReport noContext []).
  by vm_compute in H.
Qed.

Lemma orElse_some text : orElse (Some text) "" = text.
Proof. by destruct text. Qed.

Lemma parseSlice_wrapped pre body post :
  JS.indexOf pre "{" = -1 → JS.lastIndexOf post "}" = -1 →
  let response := pre +:+ ("{" +:+ body +:+ "}") +:+ post in
  JS.slice response (JS.indexOf response "{") (JS.lastIndexOf response "}" + 1)
    = "{" +:+ body +:+ "}" ∧
  parseSlice response = JSON.parse ("{" +:+ body +:+ "}").
Proof.
  intros Hpre Hpost response.
  assert (JS.indexOf response "{" = JS.strlen pre) as Hfirst.
  { unfold response. rewrite JSFacts.app_assoc, JSFacts.app_cons, JSFacts.app_nil_l.
    by apply JSFacts.indexOf_absent_app. }
  assert (JS.lastIndexOf response "}" = JS.strlen pre + (1 + JS.strlen body)) as Hlast.
  { unfold response.
    replace (pre +:+ ("{" +:+ body +:+ "}") +:+ post)
      with ((pre +:+ "{" +:+ body) +:+ String "}" post)
      by (by rewrite !JSFacts.app_assoc).
    rewrite JSFacts.lastIndexOf_app_absent by done.
    by rewrite !JSFacts.strlen_app. }
  assert (JS.slice response (JS.strlen pre) (JS.strlen pre + (1 + JS.strlen body) + 1)
          = "{" +:+ body +:+ "}") as Hslice.
  { replace (JS.strlen pre + (1 + JS.strlen body) + 1)
      with (JS.strlen pre + JS.strlen ("{" +:+ body +:+ "}")).
    - apply JSFacts.slice_middle.
    - rewrite !JSFacts.strlen_app. unfold JS.strlen. simpl. lia. }
  unfold parseSlice. rewrite Hfirst, Hlast, Hslice.
  split; [done|].
  pose proof (JSFacts.strlen_nonneg pre). pose proof (JSFacts.strlen_nonneg body).
  destruct (JS.strlen pre =? -1) eqn:E1; [lia|].
  destruct (JS.strlen pre + (1 + JS.strlen body) =? -1) eqn:E2; [lia|].
  destruct (JS.strlen pre <? JS.strlen pre + (1 + JS.strlen body)) eqn:E3; [done|lia].
Qed.

(** C5 (as amended).  A reply that parses as a whole is returned as
    parsed.  When it does not, and it is an object's text wrapped in a
    prefix without an opening brace and a suffix without a closing brace,
    the text between the first opening and the last closing brace is
    exactly the wrapped text, and the result is exactly the wrapped
    object. *)
Theorem brace_slice_roundtrip w symptoms userContext log response pre body post v :
  orElse (GROQ_API_KEY w) "" ≠ "" →
  groq w (symptomRequest w symptoms userContext)
    = Groq.Completion (Some response) →
  response = pre +:+ ("{" +:+ body +:+ "}") +:+ post →
  JS.indexOf pre "{" = -1 →
  JS.lastIndexOf post "}" = -1 →
  JSON.parse ("{" +:+ body +:+ "}") = Some v →
  let r := (analyzeSymptoms w symptoms userContext log).1 in
  (∀ u, JSON.parse response = Some u → r = u) ∧
  JS.slice response (JS.indexOf response "{") (JS.lastIndexOf response "}" + 1)
    = "{" +:+ body +:+ "}" ∧
  (JSON.parse response = None → r = v).
Proof.
  intros Hkey Hreply -> Hpre Hpost Hv.
  destruct (parseSlice_wrapped pre body post Hpre Hpost) as [Hslice Hparse].
  cbv zeta in *. unfold analyzeSymptoms, bind, create, ret.
  destruct (orElse (GROQ_API_KEY w) "") as [|c key]; [done|].
  rewrite Hreply, orElse_some. repeat split.
  - by intros u ->.
  - done.
  - intros ->. by rewrite Hparse, Hv.
Qed.

Lemma brace_slice_roundtrip_witness :
  (analyzeSymptoms
     (answering ("Sure! " +:+ assessmentText +:+ " Hope that helps."))
     feverReport noContext []).1 = assessmentValue.
Proof.
  refine (proj2 (proj2 (brace_slice_roundtrip
    (answering ("Sure! " +:+ assessmentText +:+ " Hope that helps."))
    feverReport noContext []
    ("Sure! " +:+ assessmentText +:+ " Hope that helps.")
    "Sure! " assessmentBody " Hope that helps." assessmentValue
    _ _ _ _ _ _)) _); by vm_compute.
Defined.

(** C5 as worded fails for prose that has a brace of its own: the slice
    then starts in the prose, does not parse, and the result is the
    fallback assessment built around the raw text. *)
Lemma brace_in_prose_counterexample : ¬ wrapped_json_recovered.
Proof.
  intros H.
  pose (pre := "Here is the JSON {as requested}: ").
  pose (post := " Hope that helps.").
  specialize (H (answering (pre +:+ assessmentText +:+ post))
                feverReport noContext [] pre assessmentText post).
  vm_compute in H. specialize (H _ ltac:(discriminate) eq_refl eq_refl).
  discriminate H.
Qed.

(** C6 (as amended).  [chatResponse] always returns, after exactly one
    request to the provider.  When the provider fails the reply is the
    fixed apology, which is not empty; when it answers, the reply is the
    content of the answer, and the empty string when the answer has no
    content. *)
Theorem chatResponse_total w message chatHistory userContext log :
  let request := chatRequest w message chatHistory userContext in
  let out := chatResponse w message chatHistory userContext log in
  out.2 = log ++ [request] ∧
  out.1 = match groq w request with
          | Groq.Throws => chatApology
          | Groq.Completion (Some text) => text
          | Groq.Completion None => ""
          end ∧
  chatApology ≠ "".
Proof.
  cbv zeta. unfold chatResponse, bind, create, ret.
  destruct (groq w _) as [|[text|]]; cbn [fst snd]; repeat split; try done.
  apply orElse_some.
Qed.

(** C6 as worded fails when the provider answers with empty content: the
    reply is the empty string. *)
Lemma chatResponse_empty_counterexample : ¬ chat_never_empty.
Proof.
  intros H. by apply (H (answering "") "hello" [] noContext []).
Qed.

Lemma dangerousKeywords_lower kw :
  kw ∈ dangerousKeywords → JS.toLowerCase kw = kw.
Proof.
  unfold dangerousKeywords. rewrite !elem_of_cons, elem_of_nil.
  intros H; repeat (destruct H as [->|H]; [done|]); done.
Qed.

(** C4.  A string is rejected, with the fixed safe sentence in its place,
    exactly when it contains one of the phrases of the denylist up to
    case, as every string containing [natural cure only] does; any other
    string is accepted and returned unchanged. *)
Theorem validateResponse_denylist text :
  let r := validateResponse (JSON.Str text) in
  (isValid r = false ↔
     ∃ kw, kw ∈ dangerousKeywords ∧ JS.containsIgnoringCase text kw) ∧
  (isValid r = false → sanitizedResponse r = JSON.Str safeRedirect) ∧
  (isValid r = true → sanitizedResponse r = JSON.Str text) ∧
  (JS.containsIgnoringCase text "natural cure only" → isValid r = false).
Proof.
  cbv zeta.
  assert (JS.includesAny (JS.toLowerCase text) dangerousKeywords = true ↔
          ∃ kw, kw ∈ dangerousKeywords ∧ JS.containsIgnoringCase text kw) as Hscan.
  { rewrite JSFacts.includesAny_spec.
    split; intros (kw & Hin & H); exists kw; (split; [done|]).
    - apply JSFacts.includes_lower_spec. by rewrite (dangerousKeywords_lower kw).
    - apply JSFacts.includes_lower_spec in H.
      by rewrite (dangerousKeywords_lower kw) in H. }
  unfold validateResponse. revert Hscan.
  destruct (JS.includesAny (JS.toLowerCase text) dangerousKeywords) eqn:E;
    intros Hscan; cbn [isValid sanitizedResponse].
  - split; [|split; [done|split; done]]. split; [intros _; by apply Hscan|done].
  - split; [|split; [done|split; [done|]]].
    + split; [done|]. intros H. by apply Hscan in H.
    + intros H. exfalso.
      assert (JS.containsIgnoringCase text "natural cure") as Hc.
      { by apply (JSFacts.containsIgnoringCase_part text "" "natural cure" " only"). }
      assert (false = true) as Habs; [|done]. apply Hscan.
      exists "natural cure". split; [|done].
      unfold dangerousKeywords. rewrite !elem_of_cons. tauto.
Qed.

Lemma validateResponse_denylist_witness :
  isValid (validateResponse (JSON.Str "Try a Natural Cure Only approach.")) = false ∧
  sanitizedResponse (validateResponse (JSON.Str "Please see your doctor."))
    = JSON.Str "Please see your doctor.".
Proof.
  split.
  - apply (proj2 (proj2 (proj2
      (validateResponse_denylist "Try a Natural Cure Only approach.")))).
    by exists "Try a ", "Natural Cure Only", " approach.".
  - apply (proj1 (proj2 (proj2
      (validateResponse_denylist "Please see your doctor.")))).
    reflexivity.
Defined.

End ServiceFacts.

(** ** The conversation state *)

Module ChatFacts.
Import Chat.

Lemma includes_lower_literal s kw :
  JS.toLowerCase kw = kw →
  JS.includes (JS.toLowerCase s) kw = true ↔ JS.containsIgnoringCase s kw.
Proof. intros Hkw. by rewrite <- JSFacts.includes_lower_spec, Hkw. Qed.

Lemma includesAny_lower s kws :
  Forall (λ kw, JS.toLowerCase kw = kw) kws →
  JS.includesAny (JS.toLowerCase s) kws = true ↔
  ∃ kw, kw ∈ kws ∧ JS.containsIgnoringCase s kw.
Proof.
  intros Hlow. rewrite JSFacts.includesAny_spec.
  split; intros (kw & Hin & H); exists kw; (split; [done|]);
    pose proof (proj1 (Forall_forall _ _) Hlow kw Hin) as Hkw.
  - by apply includes_lower_literal.
  - by apply includes_lower_literal in H.
Qed.

Lemma urgentKeywords_lower : Forall (λ kw, JS.toLowerCase kw = kw) urgentKeywords.
Proof. by repeat constructor. Qed.

Lemma updateContext_messages chat : messages (updateContext chat) = messages chat.
Proof.
  unfold updateContext. destruct (messages chat) eqn:E; [done|].
  destruct (lastUserMessage chat); [|done].
  by destruct (JS.includesAny _ _).
Qed.

Lemma addMessage_messages r text chat :
  messages (addMessage r text chat) = messages chat ++ [ {| role := r; content := text |} ].
Proof. unfold addMessage. by rewrite updateContext_messages. Qed.

(** What [updateContext] does once a message is there. *)
Lemma updateContext_cases chat :
  messages chat ≠ [] →
  context (updateContext chat) =
    match lastUserMessage chat with
    | Some msg =>
        if JS.includesAny (JS.toLowerCase (content msg)) urgentKeywords
        then {| emotionalState := urgent; urgencyLevel := high |}
        else context chat
    | None => context chat
    end.
Proof.
  intros Hne. unfold updateContext. destruct (messages chat); [done|].
  destruct (lastUserMessage chat); [|done].
  by destruct (JS.includesAny _ _).
Qed.

Lemma filter_none {A} (f : A → bool) (l : list A) :
  Forall (λ y, f y = false) l → List.filter f l = [].
Proof. induction 1 as [|y l Hy _ IH]; [done|]. simpl. by rewrite Hy. Qed.

Lemma last_filter_Some {A} (f : A → bool) (l : list A) x :
  last (List.filter f l) = Some x ↔
  ∃ before after, l = before ++ x :: after ∧ f x = true ∧
    Forall (λ y, f y = false) after.
Proof.
  induction l as [|a l IH].
  - split; [done|]. intros (before & after & H & _). by destruct before.
  - cbn [List.filter]. split.
    + intros Hlast.
      destruct (last (List.filter f l)) as [y|] eqn:El.
      * assert (y = x) as ->.
        { destruct (f a); [|congruence].
          rewrite last_cons, El in Hlast. congruence. }
        destruct (proj1 IH eq_refl) as (before & after & -> & Hx & Hafter).
        by exists (a :: before), after.
      * apply last_None in El.
        destruct (f a) eqn:Ea; rewrite El in Hlast; [|done].
        injection Hlast as <-. exists [], l. repeat split; [done|].
        apply Forall_forall. intros y Hy. destruct (f y) eqn:Ey; [|done].
        assert (y ∈ List.filter f l) as Hin
          by (apply list_elem_of_In, filter_In; by rewrite <- list_elem_of_In).
        rewrite El in Hin. by apply elem_of_nil in Hin.
    + intros (before & after & Hl & Hx & Hafter).
      destruct before as [|b before]; simplify_eq/=.
      * by rewrite Hx, (filter_none f after).
      * assert (last (List.filter f (before ++ x :: after)) = Some x) as Hlast
          by (apply IH; eauto).
        destruct (f b); [|done]. rewrite last_cons. by rewrite Hlast.
Qed.

(** The message scanned is the last user message among the last five. *)
Lemma lastUserMessage_spec chat msg :
  lastUserMessage chat = Some msg ↔
  ∃ before after,
    JS.lastN 5 (messages chat) = before ++ msg :: after ∧
    role msg = user ∧ Forall (λ m, role m ≠ user) after.
Proof.
  unfold lastUserMessage. rewrite last_filter_Some.
  assert (∀ m, isUser (role m) = true ↔ role m = user) as Hu
    by (intros m; by destruct (role m)).
  assert (∀ m, isUser (role m) = false ↔ role m ≠ user) as Hn
    by (intros m; by destruct (role m)).
  split; intros (before & after & H1 & H2 & H3); exists before, after;
    (split; [done|]); (split; [by apply Hu|]);
    (eapply Forall_impl; [exact H3|]); intros m; apply Hn.
Qed.

Lemma lastN_snoc {A} n (l : list A) x :
  JS.lastN (S n) (l ++ [x]) = JS.lastN n l ++ [x].
Proof.
  unfold JS.lastN. rewrite length_app. simpl.
  replace (length l + 1 - S n)%nat with (length l - n)%nat by lia.
  rewrite drop_app_le; [done|lia].
Qed.

Lemma lastUserMessage_push_user text chat :
  lastUserMessage (push user text chat) = Some {| role := user; content := text |}.
Proof.
  unfold lastUserMessage, push. cbn [messages].
  rewrite lastN_snoc, List.filter_app. cbn [List.filter role isUser].
  by rewrite last_snoc.
Qed.

(** [addMessage] leaves the urgency where it is or sets it to [high]. *)
Lemma addMessage_urgency r text chat :
  urgencyLevel (context (addMessage r text chat)) = urgencyLevel (context chat) ∨
  urgencyLevel (context (addMessage r text chat)) = high.
Proof.
  unfold addMessage. rewrite updateContext_cases by (cbn; by destruct (messages chat)).
  destruct (lastUserMessage _); [|by left].
  destruct (JS.includesAny _ _); [by right|by left].
Qed.

Lemma addMessages_keeps_high later chat :
  urgencyLevel (context chat) = high →
  urgencyLevel (context (addMessages later chat)) = high.
Proof.
  revert chat. induction later as [|m later IH]; intros chat Hhigh; [done|].
  cbn [addMessages fold_left]. apply IH.
  destruct (addMessage_urgency (role m) (content m) chat) as [->| ->]; done.
Qed.

(** C7 (as amended).  [addMessage] appends the message and then looks at
    the last user message among the last five messages.  When that message
    contains, up to case, one of [emergency], [urgent], [immediate],
    [severe], [critical], [pain] or [help], the urgency level becomes high
    and the emotional state urgent; when it contains none of them, or there
    is no such message, both keep their values.  No text gives medium. *)
Theorem updateContext_keywords chat r text :
  let chat' := addMessage r text chat in
  messages chat' = messages chat ++ [ {| role := r; content := text |} ] ∧
  (∀ msg, lastUserMessage (push r text chat) = Some msg ↔
     ∃ before after,
       JS.lastN 5 (messages chat') = before ++ msg :: after ∧
       role msg = user ∧ Forall (λ m, role m ≠ user) after) ∧
  match lastUserMessage (push r text chat) with
  | Some msg =>
      ((∃ kw, kw ∈ urgentKeywords ∧ JS.containsIgnoringCase (content msg) kw) →
       context chat' = {| emotionalState := urgent; urgencyLevel := high |}) ∧
      ((∀ kw, kw ∈ urgentKeywords → ¬ JS.containsIgnoringCase (content msg) kw) →
       context chat' = context chat)
  | None => context chat' = context chat
  end.
Proof.
  cbv zeta. split; [apply addMessage_messages|]. split.
  { intros msg. rewrite addMessage_messages. apply lastUserMessage_spec. }
  unfold addMessage.
  rewrite updateContext_cases by (cbn; by destruct (messages chat)).
  destruct (lastUserMessage (push r text chat)) as [msg|]; [|done].
  pose proof (includesAny_lower (content msg) urgentKeywords urgentKeywords_lower)
    as Hscan.
  destruct (JS.includesAny _ _).
  - split; [done|]. intros Hnone. exfalso.
    destruct (proj1 Hscan eq_refl) as (kw & Hin & Hc). by apply (Hnone kw).
  - split; [|done]. intros Hsome. by apply Hscan in Hsome.
Qed.

Lemma updateContext_keywords_witness :
  context (addMessage user "Please HELP me" (started "u1"))
    = {| emotionalState := urgent; urgencyLevel := high |} ∧
  context (addMessage user "what is a healthy breakfast" (started "u1"))
    = context (started "u1").
Proof.
  split.
  - apply (proj1 (proj2 (proj2
      (updateContext_keywords (started "u1") user "Please HELP me")))).
    exists "help". split; [by repeat constructor|].
    by exists "Please ", "HELP", " me".
  - apply (proj2 (proj2 (proj2
      (updateContext_keywords (started "u1") user "what is a healthy breakfast")))).
    intros kw Hkw Hc.
    apply (includes_lower_literal _ kw) in Hc;
      [|by apply (proj1 (Forall_forall _ _) urgentKeywords_lower)].
    revert Hkw Hc. unfold urgentKeywords. rewrite !elem_of_cons, elem_of_nil.
    intros H; repeat (destruct H as [->|H]; [by vm_compute|]); done.
Defined.

(** C8.  Once the urgency level is high, whatever messages are added
    afterwards leave it high; in particular a user message containing
    [severe chest pain] raises it to high and every later sequence of
    messages keeps it there. *)
Theorem urgency_never_downgraded chat text later :
  (urgencyLevel (context chat) = high →
   urgencyLevel (context (addMessages later chat)) = high) ∧
  (JS.containsIgnoringCase text "severe chest pain" →
   urgencyLevel (context (addMessage user text chat)) = high ∧
   urgencyLevel (context (addMessages later (addMessage user text chat))) = high).
Proof.
  split; [apply addMessages_keeps_high|]. intros Hc.
  assert (urgencyLevel (context (addMessage user text chat)) = high) as Hhigh.
  { unfold addMessage.
    rewrite updateContext_cases by (cbn; by destruct (messages chat)).
    rewrite lastUserMessage_push_user. cbn [content].
    assert (JS.includesAny (JS.toLowerCase text) urgentKeywords = true) as ->; [|done].
    apply (includesAny_lower _ _ urgentKeywords_lower).
    exists "severe". split; [unfold urgentKeywords; rewrite !elem_of_cons; tauto|].
    by apply (JSFacts.containsIgnoringCase_part text "" "severe" " chest pain"). }
  split; [done|]. by apply addMessages_keeps_high.
Qed.

Lemma urgency_never_downgraded_witness :
  urgencyLevel (context
    (addMessages
       [ {| role := assistant; content := "Please call your local emergency number." |};
         {| role := user; content := "ok thanks" |};
         {| role := assistant; content := "You are welcome." |};
         {| role := user; content := "what should I eat" |};
         {| role := assistant; content := "A balanced diet." |};
         {| role := user; content := "and drink" |};
         {| role := assistant; content := "Water." |} ]
       (addMessage user "I have Severe chest pain since noon" (started "u1"))))
  = high.
Proof.
  apply (proj2 (urgency_never_downgraded (started "u1")
                  "I have Severe chest pain since noon" _)).
  by exists "I have ", "Severe chest pain", " since noon".
Defined.

End ChatFacts.

(** ** The message route *)

Module RouteFacts.
Import Chat ChatRoute.

(** C7 as worded fails on a message about pain: [updateContext] has one
    keyword list, with [pain] and [help] in it, and one outcome, so the
    level becomes high and the state urgent where the wording gives
    medium and leaves the state alone. *)
Lemma pain_is_high_counterexample : ¬ urgency_follows_spec_wording.
Proof.
  intros H.
  specialize (H (started "u1") user "my knee pain is back"
                {| role := user; content := "my knee pain is back" |} eq_refl).
  by vm_compute in H.
Qed.

Lemma asksWhoMade_spec content :
  asksWhoMade content = true ↔ makerQuestion content.
Proof.
  unfold asksWhoMade, makerQuestion. cbv zeta.
  rewrite !orb_true_iff, andb_true_iff, !orb_true_iff.
  rewrite !ChatFacts.includes_lower_literal by done. tauto.
Qed.

Lemma lastUser_after_reply (l : list Message) text reply :
  last (List.filter (λ m, isUser (role m))
          (l ++ [ {| role := user; content := text |};
                  {| role := assistant; content := reply |} ]))
  = Some {| role := user; content := text |}.
Proof.
  rewrite List.filter_app. cbn [List.filter role isUser]. by rewrite last_snoc.
Qed.

(** After the user's message and a reply, the insight step computes the
    insights from the user's message. *)
Lemma insights_after_reply chat text reply :
  let final := updateChatInsights (addMessage assistant reply (addMessage user text chat)) in
  messages final
    = messages chat ++ [ {| role := user; content := text |};
                         {| role := assistant; content := reply |} ] ∧
  aiInsights final = insightsFor text ∧
  context final = context (addMessage assistant reply (addMessage user text chat)).
Proof.
  cbv zeta.
  assert (messages (addMessage assistant reply (addMessage user text chat))
          = messages chat ++ [ {| role := user; content := text |};
                               {| role := assistant; content := reply |} ]) as Hm.
  { rewrite !ChatFacts.addMessage_messages. by rewrite <- app_assoc. }
  unfold updateChatInsights. rewrite Hm, lastUser_after_reply.
  rewrite length_app. cbn [length].
  destruct (length (messages chat) + 2 <? 2)%nat eqn:E;
    [apply Nat.ltb_lt in E; lia|].
  by cbn.
Qed.

(** C9.  For a message that passed validation and belongs to a session
    that is found, when the text contains, up to case, [who made],
    [who built] or [who created], or [developer] together with [site],
    [app], [application] or [website], the handler answers with the fixed
    attribution and sends nothing to the provider; the user's message and
    the attribution are appended to the session, the insight step runs on
    the user's message, and the session is stored. *)
Theorem maker_question_short_circuit w (store : gmap string Chat.t)
    sessionId owner content userContext chat log :
  findOne store sessionId owner = Some chat →
  makerQuestion content →
  let out := postMessage w store [] sessionId owner content userContext log in
  let final :=
    updateChatInsights
      (addMessage assistant makerAnswer (addMessage user content chat)) in
  out.2 = log ∧
  out.1 = (Sent makerAnswer (getSummary final), <[sessionId := final]> store) ∧
  messages final
    = messages chat ++ [ {| role := user; content := content |};
                         {| role := assistant; content := makerAnswer |} ] ∧
  aiInsights final = insightsFor content.
Proof.
  intros Hfound Hasks%asksWhoMade_spec. cbv zeta.
  unfold postMessage. rewrite Hfound, Hasks. unfold ret. cbn [fst snd].
  destruct (insights_after_reply chat content makerAnswer) as (Hm & Hi & _).
  done.
Qed.

(** Any other message of a session that is found goes to the provider,
    once. *)
Lemma other_message_asks_provider w (store : gmap string Chat.t)
    sessionId owner content userContext chat log :
  findOne store sessionId owner = Some chat →
  asksWhoMade content = false →
  (postMessage w store [] sessionId owner content userContext log).2 =
    log ++ [ AIService.chatRequest w content
               ((λ m, {| Groq.role := roleName (role m); Groq.content := Chat.content m |})
                  <$> messages (addMessage user content chat))
               userContext ].
Proof.
  intros Hfound Hasks. unfold postMessage. rewrite Hfound, Hasks.
  unfold bind, AIService.chatResponse, bind, create, ret.
  by destruct (groq w _).
Qed.

Lemma maker_question_short_circuit_witness :
  let store : gmap string Chat.t := {[ "chat_1" := started "u1" ]} in
  let w := AIService.answering "unused" in
  let out := postMessage w store [] "chat_1" "u1" "Who made this app?"
               AIService.noContext [] in
  out.2 = [] ∧ ∃ summary store', out.1 = (Sent makerAnswer summary, store').
Proof.
  intros store w out.
  destruct (maker_question_short_circuit w store "chat_1" "u1" "Who made this app?"
              AIService.noContext (started "u1") [])
    as (Hlog & Hout & _).
  - by vm_compute.
  - left. by exists "", "Who made", " this app?".
  - split; [exact Hlog|]. eexists _, _. exact Hout.
Defined.

End RouteFacts.

(** * Further properties *)

(** ** The limiter, over whole runs *)

Module LimiterRunFacts.
Import Limiter LimiterRuns LimiterFacts.

Section Run.

Context (maxActions windowMs : Z).

Lemma byUser_cons userId user now rest :
  byUser userId ((user, now) :: rest) =
    if bool_decide (user = Some userId)
    then (user, now) :: byUser userId rest else byUser userId rest.
Proof. reflexivity. Qed.

Lemma verdictsFor_cons userId user now rest v vs :
  verdictsFor userId ((user, now) :: rest) (v :: vs) =
    if bool_decide (user = Some userId)
    then v :: verdictsFor userId rest vs else verdictsFor userId rest vs.
Proof. reflexivity. Qed.

(** The decision for a user and the list kept for it depend on the list
    stored for that user alone. *)
Lemma limiter_depends_on_key userId now (m1 m2 : gmap string (list Z)) :
  m1 !! userId = m2 !! userId →
  (userActionLimiter maxActions windowMs (Some userId) now m1).1 =
  (userActionLimiter maxActions windowMs (Some userId) now m2).1 ∧
  (userActionLimiter maxActions windowMs (Some userId) now m1).2 !! userId =
  (userActionLimiter maxActions windowMs (Some userId) now m2).2 !! userId.
Proof.
  intros Heq. rewrite !limiter_authenticated, Heq.
  case_bool_decide; cbn [fst snd]; by rewrite !lookup_insert_eq.
Qed.

Lemma serve_by_user_gen userId reqs :
  ∀ m1 m2 : gmap string (list Z),
    m1 !! userId = m2 !! userId →
    verdictsFor userId reqs (serve maxActions windowMs reqs m1).1 =
      (serve maxActions windowMs (byUser userId reqs) m2).1 ∧
    (serve maxActions windowMs reqs m1).2 !! userId =
      (serve maxActions windowMs (byUser userId reqs) m2).2 !! userId.
Proof.
  induction reqs as [|[user now] rest IH]; intros m1 m2 Heq; [done|].
  rewrite serve_cons, byUser_cons. cbn [fst snd]. rewrite verdictsFor_cons.
  case_bool_decide as Hu.
  - subst user. rewrite serve_cons. cbn [fst snd].
    destruct (limiter_depends_on_key userId now m1 m2 Heq) as [Hv Hm].
    destruct (IH _ _ Hm) as [IHv IHm]. by rewrite Hv, IHv, IHm.
  - apply IH. by rewrite limiter_other_key.
Qed.

(** X1.  The verdicts a user gets, and the list kept for that user, are
    those of the run made of that user's requests alone: requests of
    other users and unauthenticated requests change nothing for it. *)
Theorem serve_by_user userId reqs (m : gmap string (list Z)) :
  verdictsFor userId reqs (serve maxActions windowMs reqs m).1 =
    (serve maxActions windowMs (byUser userId reqs) m).1 ∧
  (serve maxActions windowMs reqs m).2 !! userId =
    (serve maxActions windowMs (byUser userId reqs) m).2 !! userId.
Proof. by apply serve_by_user_gen. Qed.

Lemma limiter_bounded user now (m : gmap string (list Z)) :
  (∀ userId, Z.of_nat (length (default [] (m !! userId))) <= Z.max 0 maxActions) →
  ∀ userId,
    Z.of_nat (length (default []
      ((userActionLimiter maxActions windowMs user now m).2 !! userId)))
    <= Z.max 0 maxActions.
Proof.
  intros Hm userId. destruct user as [u|]; [|apply Hm].
  destruct (decide (u = userId)) as [->|Hne];
    [|rewrite limiter_other_key by congruence; apply Hm].
  rewrite limiter_authenticated.
  set (valid := filter _ _).
  assert (length valid <= length (default [] (m !! userId)))%nat
    by apply length_filter.
  specialize (Hm userId).
  case_bool_decide; cbn [snd]; rewrite lookup_insert_eq; cbn [from_option id].
  - lia.
  - rewrite length_app. cbn [length]. lia.
Qed.

(** X2.  On a limiter that starts empty, the list kept for a user never
    holds more than [maxActions] stamps, whatever the requests and the
    clock. *)
Theorem stored_stamps_bounded reqs userId :
  Z.of_nat (length (default []
    ((serve maxActions windowMs reqs ∅).2 !! userId)))
  <= Z.max 0 maxActions.
Proof.
  assert (∀ m : gmap string (list Z),
    (∀ u, Z.of_nat (length (default [] (m !! u))) <= Z.max 0 maxActions) →
    ∀ u, Z.of_nat (length (default []
           ((serve maxActions windowMs reqs m).2 !! u))) <= Z.max 0 maxActions)
    as Hgen.
  { induction reqs as [|[user now] rest IH]; intros m Hm u; [apply Hm|].
    rewrite serve_cons. cbn [snd]. apply IH. by apply limiter_bounded. }
  apply Hgen. intros u. rewrite lookup_empty. simpl. lia.
Qed.

Lemma sameAbove_later last now (m1 m2 : gmap string (list Z)) :
  last <= now → sameAbove windowMs last m1 m2 → sameAbove windowMs now m1 m2.
Proof. intros Hle H userId t Ht. apply H. lia. Qed.

Lemma sameAbove_step user now (m1 m2 : gmap string (list Z)) :
  sameAbove windowMs now m1 m2 →
  (userActionLimiter maxActions windowMs user now m1).1 =
  (userActionLimiter maxActions windowMs user now m2).1 ∧
  sameAbove windowMs now
    (userActionLimiter maxActions windowMs user now m1).2
    (userActionLimiter maxActions windowMs user now m2).2.
Proof.
  intros Hsame. destruct user as [u|]; [|done].
  rewrite !limiter_authenticated. rewrite (Hsame u now) by lia.
  set (valid := filter _ _).
  assert (∀ L, sameAbove windowMs now (<[u := L]> m1) (<[u := L]> m2)) as Hins.
  { intros L userId t Ht. destruct (decide (u = userId)) as [->|Hne].
    - by rewrite !lookup_insert_eq.
    - rewrite !lookup_insert_ne by done. by apply Hsame. }
  case_bool_decide; cbn [fst snd]; split; try done; apply Hins.
Qed.

Lemma serve_sameAbove reqs :
  ∀ last (m1 m2 : gmap string (list Z)),
    clockFrom last reqs →
    sameAbove windowMs last m1 m2 →
    (serve maxActions windowMs reqs m1).1 = (serve maxActions windowMs reqs m2).1.
Proof.
  induction reqs as [|[user now] rest IH]; intros last m1 m2 Hclk Hsame; [done|].
  destruct Hclk as [Hle Hclk]. rewrite !serve_cons. cbn [fst snd].
  apply (sameAbove_later _ now) in Hsame; [|done].
  destruct (sameAbove_step user now m1 m2 Hsame) as [Hv Hs].
  by rewrite Hv, (IH now _ _ Hclk Hs).
Qed.

Lemma sameAbove_pruned userId now (m : gmap string (list Z)) :
  sameAbove windowMs now
    (<[userId := filter (λ time, now - time < windowMs) (default [] (m !! userId))]> m)
    m.
Proof.
  intros u t Ht. destruct (decide (userId = u)) as [->|Hne].
  - rewrite lookup_insert_eq. cbn [from_option id]. rewrite list_filter_filter.
    apply list_filter_iff. intros time. lia.
  - by rewrite lookup_insert_ne.
Qed.

(** X3.  A refused call leaves no trace: with a clock that does not run
    backwards, the requests that follow a refused one get the verdicts
    they would have got without it. *)
Theorem refused_call_leaves_no_trace userId now after (m : gmap string (list Z)) :
  clockFrom now after →
  (userActionLimiter maxActions windowMs (Some userId) now m).1 = Status429 →
  (serve maxActions windowMs ((Some userId, now) :: after) m).1 =
    Status429 :: (serve maxActions windowMs after m).1.
Proof.
  intros Hclk Hrefused. rewrite serve_cons. cbn [fst snd]. rewrite Hrefused.
  f_equal. apply (serve_sameAbove after now); [done|].
  revert Hrefused. rewrite limiter_authenticated.
  case_bool_decide; cbn [fst snd]; [|done]. intros _. apply sameAbove_pruned.
Qed.

End Run.

Lemma refused_call_leaves_no_trace_witness :
  let m : gmap string (list Z) := {[ "u1" := [0; 1; 2] ]} in
  (serve 3 1000 [(Some "u1", 500); (Some "u1", 1000); (Some "u1", 1001)] m).1 =
    Status429 :: (serve 3 1000 [(Some "u1", 1000); (Some "u1", 1001)] m).1.
Proof.
  intros m.
  apply (refused_call_leaves_no_trace 3 1000 "u1" 500
           [(Some "u1", 1000); (Some "u1", 1001)] m).
  - simpl. lia.
  - by vm_compute.
Defined.

End LimiterRunFacts.

(** ** Authentication *)

Module AuthFacts.
Import Auth.

Lemma replace_unfold s pattern replacement :
  replace s pattern replacement =
    if JS.startsWith s pattern
    then replacement +:+ substring (String.length pattern)
                           (String.length s - String.length pattern) s
    else
      match s with
      | EmptyString => EmptyString
      | String c s' => String c (replace s' pattern replacement)
      end.
Proof. by destruct s. Qed.

Lemma length_append a b :
  String.length (a +:+ b) = (String.length a + String.length b)%nat.
Proof.
  induction a as [|c a IH]; [done|].
  rewrite JSFacts.app_cons. cbn [String.length]. by rewrite IH.
Qed.

(** A text that starts with the pattern loses it. *)
Lemma replace_prefix pattern rest replacement :
  replace (pattern +:+ rest) pattern replacement = replacement +:+ rest.
Proof.
  rewrite replace_unfold.
  assert (JS.startsWith (pattern +:+ rest) pattern = true) as ->
    by (apply JSFacts.startsWith_spec; eauto).
  rewrite length_append.
  replace (String.length pattern + String.length rest - String.length pattern)%nat
    with (String.length rest) by lia.
  rewrite JSFacts.substring_skip.
  rewrite <- (JSFacts.app_nil_r rest) at 2. by rewrite JSFacts.substring_prefix.
Qed.

(** A text without the pattern is left as it is. *)
Lemma replace_absent s pattern replacement :
  JS.includes s pattern = false → replace s pattern replacement = s.
Proof.
  induction s as [|c s IH]; intros Habs; rewrite replace_unfold;
    cbn [JS.includes] in Habs; apply orb_false_iff in Habs as [-> Hrest];
    [done|]. by rewrite IH.
Qed.

(** X4.  [auth] calls [next()] exactly when the header gives a non-empty
    token that verifies to the identifier of a user who exists and is
    active, and it then attaches that user and that token; it never calls
    [next()] without a user, and otherwise answers 401, or 500 for an
    error that is neither a [JsonWebTokenError] nor a [TokenExpiredError].
    The token is the header with its first [Bearer ] taken out: the rest
    of a header that starts with it, the whole header when it has none. *)
Theorem auth_passes env authorization :
  (∀ user token,
     auth env authorization = Next (Some (user, token)) ↔
     ∃ header userId,
       authorization = Some header ∧
       token = replace header "Bearer " "" ∧ token ≠ "" ∧
       verify env token = Decoded userId ∧
       findById env userId = Found user ∧ isActive user = true) ∧
  auth env authorization ≠ Next None ∧
  (∀ status error, auth env authorization = Answer status error →
     status = 401 ∨
     (status = 500 ∧ ∃ name,
        name ≠ "JsonWebTokenError" ∧ name ≠ "TokenExpiredError" ∧
        ∃ token, headerToken authorization = Some token ∧
          (verify env token = VerifyThrows name ∨
           ∃ userId, verify env token = Decoded userId ∧
                     findById env userId = FindThrows name))) ∧
  (∀ token, headerToken (Some ("Bearer " +:+ token)) = Some token) ∧
  (∀ header, JS.includes header "Bearer " = false →
     headerToken (Some header) = Some header).
Proof.
  assert (∀ name, (∃ e, authError name = Answer 401 e) ∨
            (authError name = Answer 500 "Authentication error." ∧
             name ≠ "JsonWebTokenError" ∧ name ≠ "TokenExpiredError")) as Herr.
  { intros name. unfold authError.
    destruct (String.eqb_spec name "JsonWebTokenError"); [left; eauto|].
    destruct (String.eqb_spec name "TokenExpiredError"); [left; eauto|].
    by right. }
  split; [|split; [|split; [|split]]].
  - intros user token. unfold auth, headerToken. split.
    + destruct authorization as [header|]; [|done]. cbn [fmap option_fmap option_map].
      destruct (replace header "Bearer " "") as [|c tok] eqn:Etok; [done|].
      destruct (verify env (String c tok)) as [userId|name] eqn:Ev;
        [|destruct (Herr name) as [[e He]|[He _]]; by rewrite He].
      destruct (findById env userId) as [u| |name] eqn:Ef; [|done|
        destruct (Herr name) as [[e He]|[He _]]; by rewrite He].
      destruct (isActive u) eqn:Ea; [|done].
      intros [= <- <-]. exists header, userId. by rewrite Etok.
    + intros (header & userId & -> & -> & Hne & Hv & Hf & Ha).
      cbn [fmap option_fmap option_map].
      destruct (replace header "Bearer " "") as [|c tok]; [done|].
      by rewrite Hv, Hf, Ha.
  - unfold auth. destruct (headerToken authorization) as [[|c tok]|]; [done| |done].
    destruct (verify env _) as [userId|name];
      [|destruct (Herr name) as [[e He]|[He _]]; by rewrite He].
    destruct (findById env userId) as [u| |name]; [|done|
      destruct (Herr name) as [[e He]|[He _]]; by rewrite He].
    by destruct (isActive u).
  - intros status error. unfold auth.
    destruct (headerToken authorization) as [[|c tok]|];
      [intros [= <- _]; by left| |intros [= <- _]; by left].
    destruct (verify env _) as [userId|name] eqn:Ev.
    + destruct (findById env userId) as [u| |name] eqn:Ef.
      * destruct (isActive u); [done|intros [= <- _]; by left].
      * intros [= <- _]; by left.
      * destruct (Herr name) as [[e He]|(He & H1 & H2)]; rewrite He.
        -- intros [= <- _]; by left.
        -- intros [= <- _]. right. split; [done|]. exists name.
           repeat split; try done. eexists. split; [done|]. right. eauto.
    + destruct (Herr name) as [[e He]|(He & H1 & H2)]; rewrite He.
      * intros [= <- _]; by left.
      * intros [= <- _]. right. split; [done|]. exists name.
        repeat split; try done. eexists. split; [done|]. by left.
  - intros token. unfold headerToken. cbn [fmap option_fmap option_map].
    by rewrite replace_prefix.
  - intros header Habs. unfold headerToken. cbn [fmap option_fmap option_map].
    by rewrite replace_absent.
Qed.

(** A user store with one active and one deactivated user, and a
    verifier that reads the user's identifier off the token. *)
Lemma auth_passes_witness :
  let env :=
    {| verify := λ token,
         if String.eqb token "expired" then VerifyThrows "TokenExpiredError"
         else Decoded (Some token);
       findById := λ id,
         match id with
         | Some "u1" => Found {| _id := "u1"; isActive := true; role := None |}
         | Some "u2" => Found {| _id := "u2"; isActive := false; role := None |}
         | _ => Missing
         end |} in
  auth env (Some "Bearer u1")
    = Next (Some ({| _id := "u1"; isActive := true; role := None |}, "u1")) ∧
  headerToken (Some "u1") = Some "u1".
Proof.
  intros env. split.
  - apply (proj1 (auth_passes env (Some "Bearer u1"))).
    exists "Bearer u1", (Some "u1"). by vm_compute.
  - apply (proj2 (proj2 (proj2 (proj2 (auth_passes env None))))). reflexivity.
Defined.

(** X5.  [optionalAuth] always calls [next()], and it attaches a user
    exactly when [auth] lets the same request through, the same user and
    token. *)
Theorem optionalAuth_never_rejects env authorization :
  optionalAuth env authorization =
    Next (match auth env authorization with
          | Next attached => attached
          | Answer _ _ => None
          end).
Proof.
  unfold optionalAuth, auth.
  destruct (headerToken authorization) as [[|c tok]|]; [done| |done].
  destruct (verify env _) as [userId|name].
  - destruct (findById env userId) as [u| |name]; [by destruct (isActive u)|done|].
    unfold authError. by repeat case_match.
  - unfold authError. by repeat case_match.
Qed.

End AuthFacts.

(** ** The heuristic assessor: recommendations, order, bounds *)

Module HeuristicMoreFacts.
Import Symptom AIService HeuristicViews HeuristicFacts.

Lemma maxSeverity_severe symptoms :
  3 <= maxSeverity symptoms ↔ ∃ s, s ∈ symptoms ∧ severity s = Some severe.
Proof.
  split.
  - intros Hmax. destruct symptoms as [|s0 rest]; [by vm_compute in Hmax|].
    destruct (maxSeverity_attained (s0 :: rest)) as (s & Hin & Hs); [done|].
    exists s. split; [done|]. unfold severityScore in Hs.
    destruct (severity s) as [[]|]; (done || lia).
  - intros (s & Hin & Hs). pose proof (maxSeverity_upper _ _ Hin) as Hle.
    unfold severityScore in Hle. rewrite Hs in Hle. lia.
Qed.

Lemma maxSeverity_moderate symptoms :
  2 <= maxSeverity symptoms ↔
  ∃ s, s ∈ symptoms ∧ (severity s = Some moderate ∨ severity s = Some severe).
Proof.
  split.
  - intros Hmax. destruct symptoms as [|s0 rest]; [by vm_compute in Hmax|].
    destruct (maxSeverity_attained (s0 :: rest)) as (s & Hin & Hs); [done|].
    exists s. split; [done|]. unfold severityScore in Hs.
    destruct (severity s) as [[]|]; (tauto || lia).
  - intros (s & Hin & Hs). pose proof (maxSeverity_upper _ _ Hin) as Hle.
    unfold severityScore in Hle. destruct Hs as [Hs|Hs]; rewrite Hs in Hle; lia.
Qed.

Lemma names_includes symptoms m :
  JS.arrayIncludes (names symptoms) m = true ↔
  ∃ s, s ∈ symptoms ∧ JS.toLowerCase (name s) = m.
Proof.
  rewrite arrayIncludes_spec. unfold names. rewrite list_elem_of_fmap.
  split; intros (s & H1 & H2); exists s; by split.
Qed.

(** X6.  The recommendations always end with a consultation and a
    supportive-care entry; an emergency entry with priority urgent comes
    first exactly when some symptom is severe or is named chest pain or
    shortness of breath (up to case); the consultation has priority high
    and is due within 1-3 days exactly when some symptom is moderate or
    severe, and has priority medium, within 1-2 weeks, otherwise. *)
Theorem heuristic_recommendations symptoms userContext :
  let recs := Assessment.recommendations (ruleBasedAssessment symptoms userContext) in
  let alarming :=
    ∃ s, s ∈ symptoms ∧
      (severity s = Some severe
       ∨ JS.toLowerCase (name s) = "chest pain"
       ∨ JS.toLowerCase (name s) = "shortness of breath") in
  let moderateUp :=
    ∃ s, s ∈ symptoms ∧ (severity s = Some moderate ∨ severity s = Some severe) in
  (alarming →
     (λ r, (Recommendation.type r, Recommendation.priority r)) <$> take 1 recs
       = [("emergency", "urgent")] ∧ length recs = 3%nat) ∧
  (¬ alarming → length recs = 2%nat) ∧
  (Recommendation.type <$> drop (length recs - 2) recs = ["consultation"; "lifestyle"]) ∧
  (moderateUp →
     (λ r, (Recommendation.priority r, Recommendation.timeframe r))
       <$> drop (length recs - 2) recs
     = [("high", "Within 1-3 days"); ("medium", "Ongoing")]) ∧
  (¬ moderateUp →
     (λ r, (Recommendation.priority r, Recommendation.timeframe r))
       <$> drop (length recs - 2) recs
     = [("medium", "Within 1-2 weeks"); ("medium", "Ongoing")]).
Proof.
  cbv zeta. cbn [ruleBasedAssessment Assessment.recommendations].
  unfold heuristicRecommendations.
  assert ((3 <=? maxSeverity symptoms)
          || JS.arrayIncludes (names symptoms) "chest pain"
          || JS.arrayIncludes (names symptoms) "shortness of breath" = true ↔
          ∃ s, s ∈ symptoms ∧
            (severity s = Some severe
             ∨ JS.toLowerCase (name s) = "chest pain"
             ∨ JS.toLowerCase (name s) = "shortness of breath")) as Halarm.
  { rewrite !orb_true_iff, Z.leb_le, maxSeverity_severe, !names_includes.
    split.
    - intros [[(s & ? & ?)|(s & ? & ?)]|(s & ? & ?)]; exists s; tauto.
    - intros (s & ? & [?|[?|?]]); [left; left|left; right|right]; by exists s. }
  assert ((2 <=? maxSeverity symptoms) = true ↔
          ∃ s, s ∈ symptoms ∧ (severity s = Some moderate ∨ severity s = Some severe))
    as Hmod by (by rewrite Z.leb_le, maxSeverity_moderate).
  destruct ((3 <=? maxSeverity symptoms) || _ || _) eqn:Ea;
    destruct (2 <=? maxSeverity symptoms) eqn:Em; cbn;
    (split; [|split; [|split; [|split]]]); try done; intros Hyp;
    first [ by apply Halarm in Hyp
          | by apply Hmod in Hyp
          | exfalso; apply Hyp; by apply Halarm
          | exfalso; apply Hyp; by apply Hmod ].
Qed.

Lemma heuristic_recommendations_witness :
  let report := [ Symptom.Build_t "Chest Pain" (Some mild) None None ] in
  length (Assessment.recommendations (ruleBasedAssessment report noContext)) = 3%nat.
Proof.
  intros report.
  apply (proj1 (heuristic_recommendations report noContext)).
  exists (Symptom.Build_t "Chest Pain" (Some mild) None None).
  split; [by repeat constructor|]. right. left. reflexivity.
Defined.

Lemma fold_left_permutation {A B} (f : B → A → B) (l l' : list A) :
  (∀ b x y, f (f b x) y = f (f b y) x) →
  l ≡ₚ l' → ∀ b, fold_left f l b = fold_left f l' b.
Proof.
  intros Hcomm Hperm. induction Hperm as [|x l l' _ IH|x y l|l1 l2 l3 _ IH1 _ IH2];
    intros b; cbn [fold_left].
  - done.
  - apply IH.
  - by rewrite Hcomm.
  - by rewrite IH1, IH2.
Qed.

Lemma totalSeverity_permutation l l' : l ≡ₚ l' → totalSeverity l = totalSeverity l'.
Proof.
  intros Hperm. unfold totalSeverity. apply fold_left_permutation; [|done].
  intros; lia.
Qed.

Lemma maxSeverity_permutation l l' : l ≡ₚ l' → maxSeverity l = maxSeverity l'.
Proof.
  intros Hperm. unfold maxSeverity. apply fold_left_permutation; [|done].
  intros; lia.
Qed.

Lemma arrayIncludes_ext (l l' : list string) :
  (∀ m, m ∈ l ↔ m ∈ l') → ∀ m, JS.arrayIncludes l m = JS.arrayIncludes l' m.
Proof.
  intros Hiff m. apply eq_true_iff_eq. rewrite !arrayIncludes_spec. apply Hiff.
Qed.

(** The conditions and the recommendations read the names as a set, the
    severities through their sum and their maximum. *)
Lemma assessment_ext symptoms symptoms' :
  (∀ m, m ∈ names symptoms ↔ m ∈ names symptoms') →
  totalSeverity symptoms = totalSeverity symptoms' →
  maxSeverity symptoms = maxSeverity symptoms' →
  ∀ userContext userContext',
    verdict <$> Assessment.possibleConditions (ruleBasedAssessment symptoms userContext)
    = verdict <$> Assessment.possibleConditions (ruleBasedAssessment symptoms' userContext') ∧
    Assessment.recommendations (ruleBasedAssessment symptoms userContext)
    = Assessment.recommendations (ruleBasedAssessment symptoms' userContext').
Proof.
  intros Hnames Htotal Hmax userContext userContext'.
  pose proof (arrayIncludes_ext _ _ Hnames) as Hinc.
  assert (matched symptoms = matched symptoms') as Hmatched.
  { unfold matched. apply List.filter_ext. intros r. unfold ruleMatches.
    induction (Rule.match_ r) as [|m ms IH]; [done|].
    cbn [existsb]. by rewrite Hinc, IH. }
  split.
  - cbn [ruleBasedAssessment Assessment.possibleConditions].
    rewrite !fmap_imap. unfold baseConditions. rewrite Hmatched.
    apply imap_ext. intros k r _. unfold verdict, toCondition. cbn.
    by rewrite Htotal, Hmax.
  - cbn [ruleBasedAssessment Assessment.recommendations].
    unfold heuristicRecommendations. by rewrite Hmax, !Hinc.
Qed.

(** X7.  Reporting the same symptoms in another order gives the same
    conditions in the same order, with the same probabilities, confidences
    and risk levels, and the same recommendations; only the echoed list of
    names follows the order of the report. *)
Theorem heuristic_order_irrelevant symptoms symptoms' userContext userContext' :
  symptoms ≡ₚ symptoms' →
  let a := ruleBasedAssessment symptoms userContext in
  let a' := ruleBasedAssessment symptoms' userContext' in
  verdict <$> Assessment.possibleConditions a
    = verdict <$> Assessment.possibleConditions a' ∧
  Assessment.recommendations a = Assessment.recommendations a' ∧
  (∀ c c', c ∈ Assessment.possibleConditions a →
           c' ∈ Assessment.possibleConditions a' →
           Condition.symptoms c ≡ₚ Condition.symptoms c').
Proof.
  intros Hperm. cbv zeta.
  assert (names symptoms ≡ₚ names symptoms') as Hnames
    by (unfold names; by rewrite Hperm).
  destruct (assessment_ext symptoms symptoms') with (userContext := userContext)
    (userContext' := userContext') as [Hc Hr].
  - intros m. by rewrite Hnames.
  - by apply totalSeverity_permutation.
  - by apply maxSeverity_permutation.
  - split; [done|]. split; [done|].
    intros c c' Hin Hin'.
    apply list_elem_of_lookup in Hin as [k Hk], Hin' as [k' Hk'].
    apply possibleConditions_lookup in Hk as (_ & r & _ & ->).
    apply possibleConditions_lookup in Hk' as (_ & r' & _ & ->).
    done.
Qed.

Lemma heuristic_order_irrelevant_witness :
  let fever := Symptom.Build_t "fever" (Some severe) None None in
  let fatigue := Symptom.Build_t "fatigue" (Some mild) None None in
  Assessment.recommendations (ruleBasedAssessment [fever; fatigue] noContext)
    = Assessment.recommendations (ruleBasedAssessment [fatigue; fever] noContext).
Proof.
  intros fever fatigue.
  apply (heuristic_order_irrelevant [fever; fatigue] [fatigue; fever]
           noContext noContext).
  apply perm_swap.
Defined.


Lemma totalSeverity_mono l l' :
  atLeastAsSevere l l' → totalSeverity l <= totalSeverity l'.
Proof.
  rewrite !totalSeverity_sum. induction 1 as [|s s' l l' [_ Hs] _ IH]; [done|].
  rewrite !fmap_cons. cbn [foldr]. lia.
Qed.

Lemma maxSeverity_mono l l' :
  atLeastAsSevere l l' → maxSeverity l <= maxSeverity l'.
Proof.
  intros H. unfold maxSeverity.
  assert (∀ a b, a <= b →
            fold_left (λ max s, Z.max max (severityScore s)) l a
            <= fold_left (λ max s, Z.max max (severityScore s)) l' b) as Hgen.
  { induction H as [|s s' l l' [_ Hs] _ IH]; intros a b Hab; [done|].
    cbn [fold_left]. apply IH. lia. }
  by apply Hgen.
Qed.

Lemma names_same l l' : atLeastAsSevere l l' → names l = names l'.
Proof.
  unfold names. induction 1 as [|s s' l l' [Hn _] _ IH]; [done|].
  by rewrite !fmap_cons, Hn, IH.
Qed.

(** X9.  Reporting the same symptoms with severities that are at least as
    high gives the same conditions in the same order, and no probability
    and no confidence is lower. *)
Theorem heuristic_monotone symptoms symptoms' userContext userContext' :
  atLeastAsSevere symptoms symptoms' →
  let conds :=
    Assessment.possibleConditions (ruleBasedAssessment symptoms userContext) in
  let conds' :=
    Assessment.possibleConditions (ruleBasedAssessment symptoms' userContext') in
  Condition.condition <$> conds = Condition.condition <$> conds' ∧
  ∀ k c c', conds !! k = Some c → conds' !! k = Some c' →
    Condition.probability c <= Condition.probability c' ∧
    Condition.confidence c <= Condition.confidence c'.
Proof.
  intros Hsev. cbv zeta.
  pose proof (totalSeverity_mono _ _ Hsev) as Htotal.
  pose proof (maxSeverity_mono _ _ Hsev) as Hmax.
  assert (baseConditions symptoms = baseConditions symptoms') as Hbase
    by (unfold baseConditions, matched; by rewrite (names_same _ _ Hsev)).
  split.
  - cbn [ruleBasedAssessment Assessment.possibleConditions].
    rewrite !fmap_imap, Hbase. by apply imap_ext.
  - intros k c c' Hk Hk'.
    apply possibleConditions_lookup in Hk as (_ & r & Hr & ->).
    apply possibleConditions_lookup in Hk' as (_ & r' & Hr' & ->).
    rewrite Hbase, Hr' in Hr. injection Hr as ->.
    cbn [toCondition Condition.probability Condition.confidence]. lia.
Qed.

Lemma heuristic_monotone_witness :
  let mildCough := Symptom.Build_t "cough" (Some mild) None None in
  let severeCough := Symptom.Build_t "cough" (Some severe) None None in
  Condition.condition
    <$> Assessment.possibleConditions (ruleBasedAssessment [mildCough] noContext)
  = Condition.condition
    <$> Assessment.possibleConditions (ruleBasedAssessment [severeCough] noContext).
Proof.
  intros mildCough severeCough.
  apply (heuristic_monotone [mildCough] [severeCough] noContext noContext).
  repeat constructor. by vm_compute.
Defined.

End HeuristicMoreFacts.

(** ** The validator and the symptom route *)

Module CheckFacts.
Import AIService SymptomRoute.

(** X10.  What the validator returns passes the validator unchanged, and a
    value that is not a string passes as it is. *)
Theorem validateResponse_settles v :
  let r := validateResponse v in
  validateResponse (sanitizedResponse r)
    = {| isValid := true; sanitizedResponse := sanitizedResponse r |} ∧
  match v with
  | JSON.Str _ => True
  | _ => r = {| isValid := true; sanitizedResponse := v |}
  end.
Proof.
  cbv zeta. split; [|by destruct v].
  unfold validateResponse at 2 3.
  destruct v as [| |b|m e|text|items|fields]; try done.
  destruct (JS.includesAny (JS.toLowerCase text) dangerousKeywords) eqn:E;
    cbn [sanitizedResponse]; [done|].
  unfold validateResponse. by rewrite E.
Qed.





(** What the handler makes of the value [analyzeSymptoms] returned. *)
Lemma check_unfold w save report userContext log :
  let r := (analyzeSymptoms w report userContext log).1 in
  let log' := (analyzeSymptoms w report userContext log).2 in
  check w save [] report userContext log =
    (match r with
     | JSON.Null | JSON.Undefined => (Failed, None)
     | _ =>
         let validation := validateResponse (JSON.get r "generalAdvice") in
         let a :=
           if isValid validation then r
           else match r with
                | JSON.Obj fields =>
                    JSON.Obj (setField "generalAdvice" (sanitizedResponse validation) fields)
                | other => other
                end in
         let record :=
           {| symptoms := report; aiAssessment := a;
              tags := (λ s, JS.toLowerCase (Symptom.name s)) <$> report |} in
         match save record with
         | SaveThrows message => (onError message, None)
         | SavedAs id => (Created a id, Some record)
         end
     end, log').
Proof.
  cbv zeta. unfold check, bind, ret.
  destruct (analyzeSymptoms w report userContext log) as [r log'].
  cbn [fst snd]. destruct r; try done; by destruct (save _).
Qed.



(** X12.  [POST /check] sends at most one request to the provider, and
    none when validation fails or no credential is configured; it answers
    400 with nothing saved when validation fails, and 500 with nothing
    saved when the provider's text is the JSON value [null]. *)
Theorem check_failures w save errors report userContext log :
  let out := check w save errors report userContext log in
  (out.2 = log ∨ out.2 = log ++ [symptomRequest w report userContext]) ∧
  (errors ≠ [] → out = (BadRequest errors, None, log)) ∧
  (orElse (GROQ_API_KEY w) "" = "" → out.2 = log) ∧
  (errors = [] → (analyzeSymptoms w report userContext log).1 = JSON.Null →
     out.1 = (Failed, None)) ∧
  (∀ content, orElse (GROQ_API_KEY w) "" ≠ "" →
     groq w (symptomRequest w report userContext) = Groq.Completion content →
     JSON.parse (orElse content "") = Some JSON.Null →
     (analyzeSymptoms w report userContext log).1 = JSON.Null).
Proof.
  cbv zeta.
  assert ((analyzeSymptoms w report userContext log).2 = log ∨
          (analyzeSymptoms w report userContext log).2
            = log ++ [symptomRequest w report userContext]) as Hlog.
  { unfold analyzeSymptoms, bind, create, ret.
    destruct (orElse (GROQ_API_KEY w) ""); [by left|right].
    by repeat case_match. }
  split; [|split; [|split; [|split]]].
  - destruct errors as [|e errors]; [|by left].
    rewrite check_unfold. by cbn [snd].
  - by destruct errors.
  - intros Hkey. destruct errors as [|e errors]; [|done].
    rewrite check_unfold. cbn [snd]. unfold analyzeSymptoms. by rewrite Hkey.
  - intros -> Hnull. rewrite check_unfold. cbv zeta. cbn [fst]. by rewrite Hnull.
  - intros content Hkey Hreply Hparse. unfold analyzeSymptoms, bind, create, ret.
    destruct (orElse (GROQ_API_KEY w) ""); [done|].
    by rewrite Hreply, Hparse.
Qed.

Lemma check_failures_witness :
  (check (answering "null") (λ _, SavedAs "s1") [] feverReport noContext []).1
    = (Failed, None).
Proof.
  apply (proj1 (proj2 (proj2 (proj2
    (check_failures (answering "null") (λ _, SavedAs "s1") []
       feverReport noContext []))))); [reflexivity|].
  apply (proj2 (proj2 (proj2 (proj2
    (check_failures (answering "null") (λ _, SavedAs "s1") []
       feverReport noContext [])))) (Some "null")); by vm_compute.
Defined.

End CheckFacts.

(** ** Age and pagination *)

Module AgeFacts.
Import Age.

(** X13.  The age is at least [n] exactly from the [n]-th anniversary of
    the birth date on, in calendar order; so it never decreases as the
    day advances, and it is 0 on the day of birth. *)
Theorem calculateAge_anniversary today birthDate :
  (∀ n, n <= calculateAge today birthDate ↔ notAfter (anniversary n birthDate) today) ∧
  (∀ later, notAfter today later →
     calculateAge today birthDate <= calculateAge later birthDate) ∧
  calculateAge birthDate birthDate = 0.
Proof.
  unfold calculateAge, notAfter, anniversary. cbv zeta. cbn [fullYear month date].
  split; [|split].
  - intros n.
    destruct (Z.ltb_spec (month today - month birthDate) 0);
      destruct (Z.eqb_spec (month today - month birthDate) 0);
      destruct (Z.ltb_spec (date today) (date birthDate)); cbn [orb andb]; lia.
  - intros later Hlater.
    destruct (Z.ltb_spec (month today - month birthDate) 0);
      destruct (Z.eqb_spec (month today - month birthDate) 0);
      destruct (Z.ltb_spec (date today) (date birthDate));
      destruct (Z.ltb_spec (month later - month birthDate) 0);
      destruct (Z.eqb_spec (month later - month birthDate) 0);
      destruct (Z.ltb_spec (date later) (date birthDate)); cbn [orb andb]; lia.
  - rewrite !Z.sub_diag, !Z.ltb_irrefl. cbn. lia.
Qed.

Lemma calculateAge_anniversary_witness :
  let birth := {| fullYear := 2000; month := 2; date := 15 |} in
  calculateAge {| fullYear := 2024; month := 2; date := 14 |} birth
  <= calculateAge {| fullYear := 2024; month := 2; date := 15 |} birth.
Proof.
  intros birth.
  apply (proj1 (proj2 (calculateAge_anniversary
    {| fullYear := 2024; month := 2; date := 14 |} birth))).
  unfold notAfter. simpl. lia.
Defined.

Example calculateAge_day_before :
  calculateAge {| fullYear := 2024; month := 2; date := 14 |}
               {| fullYear := 2000; month := 2; date := 15 |} = 23.
Proof. reflexivity. Qed.

Example calculateAge_birthday :
  calculateAge {| fullYear := 2024; month := 2; date := 15 |}
               {| fullYear := 2000; month := 2; date := 15 |} = 24.
Proof. reflexivity. Qed.

End AgeFacts.

Module PaginationFacts.
Import Pagination.

Lemma ceilDiv_bounds total limit :
  0 < limit →
  (ceilDiv total limit - 1) * limit < total <= ceilDiv total limit * limit.
Proof.
  intros Hl. unfold ceilDiv.
  pose proof (Z.div_mod (- total) limit ltac:(lia)).
  pose proof (Z.mod_pos_bound (- total) limit Hl). nia.
Qed.

Lemma ceilDiv_lt page total limit :
  0 < limit → page < ceilDiv total limit ↔ page * limit < total.
Proof. intros Hl. pose proof (ceilDiv_bounds total limit Hl). nia. Qed.

Lemma drop_nonempty {A} (n : nat) (l : list A) :
  drop n l ≠ [] ↔ (n < length l)%nat.
Proof.
  split.
  - intros Hne. destruct (decide (n < length l)%nat); [done|].
    by rewrite drop_ge in Hne by lia.
  - intros Hlt Hnil. apply (f_equal length) in Hnil.
    rewrite length_drop in Hnil. simpl in Hnil. lia.
Qed.

Lemma pages_concat {A} (k n : nat) (l : list A) :
  concat ((λ p : nat, take k (drop ((p - 1) * k) l)) <$> seq 1 n) = take (n * k) l.
Proof.
  induction n as [|n IH]; [done|].
  rewrite seq_S, fmap_app, concat_app, IH. cbn [fmap list_fmap concat].
  rewrite app_nil_r. replace (1 + n - 1)%nat with n by lia.
  rewrite take_take_drop. f_equal. lia.
Qed.

(** X14.  For a positive [limit] and a page from 1 on, over the matching
    documents: [hasNext] holds exactly when documents remain after the
    page, [hasPrev] exactly from page 2 on, [totalPages] is the least
    number of pages that holds all the documents, a page is empty exactly
    when it lies beyond [totalPages], and the pages 1 to [totalPages] put
    one after the other are the documents. *)
Theorem pagination_consistent {A} (page limit : Z) (docs : list A) :
  0 < limit → 1 <= page →
  let total := Z.of_nat (length docs) in
  let p := pagination page limit total in
  (hasNext p = true ↔ drop (Z.to_nat (page * limit)) docs ≠ []) ∧
  (hasPrev p = true ↔ 1 < page) ∧
  (totalPages p - 1) * limit < total <= totalPages p * limit ∧
  (pageOf page limit docs = [] ↔ totalPages p < page) ∧
  concat (allPages limit docs) = docs.
Proof.
  intros Hl Hp total p. cbn [p pagination hasNext hasPrev totalPages].
  pose proof (ceilDiv_bounds total limit Hl) as Hb.
  split; [|split; [|split; [|split]]].
  - rewrite Z.ltb_lt, (ceilDiv_lt _ _ _ Hl), drop_nonempty. unfold total. lia.
  - apply Z.ltb_lt.
  - done.
  - unfold pageOf.
    assert (take (Z.to_nat limit) (drop (Z.to_nat ((page - 1) * limit)) docs) = []
            ↔ ¬ (Z.to_nat ((page - 1) * limit) < length docs)%nat) as ->.
    { rewrite <- drop_nonempty.
      destruct (drop (Z.to_nat ((page - 1) * limit)) docs) as [|x rest].
      - rewrite take_nil. split; [by intros _ H|done].
      - destruct (Z.to_nat limit) eqn:E; [lia|]. simpl.
        split; [done|]. intros H. exfalso. by apply H. }
    unfold total in *. nia.
  - unfold allPages. fold total.
    set (n := Z.to_nat (ceilDiv total limit)).
    rewrite (list_fmap_ext _ (λ p0 : nat,
               take (Z.to_nat limit) (drop ((p0 - 1) * Z.to_nat limit) docs))).
    + rewrite pages_concat. apply take_ge. unfold n, total in *. nia.
    + intros i p0 Hi. apply lookup_seq in Hi as [-> _]. unfold pageOf.
      do 2 f_equal. nia.
Qed.

Lemma pagination_consistent_witness :
  concat (allPages 2 ["a"; "b"; "c"; "d"; "e"]) = ["a"; "b"; "c"; "d"; "e"] ∧
  (pageOf 4 2 ["a"; "b"; "c"; "d"; "e"] = [] ↔
   totalPages (pagination 4 2 5) < 4).
Proof.
  split.
  - apply (pagination_consistent 1 2 ["a"; "b"; "c"; "d"; "e"]); lia.
  - apply (pagination_consistent 4 2 ["a"; "b"; "c"; "d"; "e"]); lia.
Defined.

End PaginationFacts.

(** ** The chat routes *)

Module SessionFacts.
Import Chat ChatRoute SessionRoutes.







Lemma findOne_owned (store : gmap string Chat.t) sessionId owner :
  findOne store sessionId owner =
    match owned store sessionId owner with
    | Some chat =>
        match status chat with
        | active | paused => Some chat
        | completed | archived => None
        end
    | None => None
    end.
Proof.
  unfold findOne, owned. destruct (store !! sessionId) as [chat|]; [|done].
  destruct (String.eqb _ _); [|done]. by destruct (status chat).
Qed.

Lemma owned_spec (store : gmap string Chat.t) sessionId owner chat :
  owned store sessionId owner = Some chat ↔
  store !! sessionId = Some chat ∧ userId chat = owner.
Proof.
  unfold owned. destruct (store !! sessionId) as [c|]; [|by split; [|intros []]].
  destruct (String.eqb_spec (userId c) owner) as [Heq|Hne]; split.
  - by intros [= ->].
  - by intros [[= ->] _].
  - done.
  - intros [[= ->] ?]. done.
Qed.

(** X16.  A message is refused with the store and the provider untouched
    when validation failed (400) and when the session is not found (404);
    it is not found exactly when there is no session with that
    identifier, or it belongs to another user, or it is completed or
    archived. *)
Theorem postMessage_refused w (store : gmap string Chat.t)
    errors sessionId owner content userContext log :
  let out := postMessage w store errors sessionId owner content userContext log in
  (errors ≠ [] → out = (ChatRoute.BadRequest errors, store, log)) ∧
  (errors = [] → findOne store sessionId owner = None →
     out = (ChatRoute.NotFound, store, log)) ∧
  (findOne store sessionId owner = None ↔
     store !! sessionId = None
     ∨ ∃ chat, store !! sessionId = Some chat ∧
         (userId chat ≠ owner ∨ status chat = completed ∨ status chat = archived)).
Proof.
  cbv zeta. split; [|split].
  - by destruct errors.
  - intros -> Hnone. unfold postMessage. by rewrite Hnone.
  - unfold findOne. destruct (store !! sessionId) as [chat|]; [|by split; [left|]].
    destruct (String.eqb_spec (userId chat) owner) as [Heq|Hne].
    + destruct (status chat) eqn:Es; cbn; split; try done.
      * intros [?|(c & [= <-] & [?|[?|?]])]; congruence.
      * intros [?|(c & [= <-] & [?|[?|?]])]; congruence.
      * intros _. right. exists chat. tauto.
      * intros _. right. exists chat. tauto.
    + cbn. split; [|done]. intros _. right. exists chat. tauto.
Qed.

Lemma postMessage_refused_witness :
  let store : gmap string Chat.t := {[ "chat_1" := started "u1" ]} in
  postMessage (AIService.answering "hello") store [] "chat_1" "u2" "hi"
    AIService.noContext []
  = (ChatRoute.NotFound, store, []).
Proof.
  intros store.
  apply (proj1 (proj2 (postMessage_refused (AIService.answering "hello") store []
                         "chat_1" "u2" "hi" AIService.noContext [])));
    [reflexivity|by vm_compute].
Defined.

(** X17.  [PUT /:sessionId] by the owner stores the status it is given,
    whatever the status was, and leaves the messages, the context and the
    insights as they are; afterwards the session takes messages exactly
    when that status is active or paused, so a completed or archived
    session is open again once it is set to active.  Other sessions are
    not touched. *)
Theorem putSession_status (store : gmap string Chat.t) sessionId owner newStatus chat :
  owned store sessionId owner = Some chat →
  let out := putSession store [] sessionId owner newStatus in
  ∃ chat',
    out = (Updated (getSummary chat'), <[sessionId := chat']> store) ∧
    status chat' = newStatus ∧
    messages chat' = messages chat ∧ context chat' = context chat ∧
    aiInsights chat' = aiInsights chat ∧ userId chat' = userId chat ∧
    (findOne out.2 sessionId owner =
       match newStatus with
       | active | paused => Some chat'
       | completed | archived => None
       end) ∧
    (∀ other, other ≠ sessionId → out.2 !! other = store !! other).
Proof.
  intros Howned. cbv zeta. unfold putSession. rewrite Howned.
  set (chat' := {| userId := userId chat; status := newStatus;
                   messages := messages chat; context := context chat;
                   aiInsights := aiInsights chat |}).
  exists chat'. split; [reflexivity|]. cbn [snd].
  repeat split.
  - rewrite findOne_owned.
    assert (owned (<[sessionId := chat']> store) sessionId owner = Some chat') as ->.
    { apply owned_spec. rewrite lookup_insert_eq. split; [done|].
      by apply owned_spec in Howned as [_ ?]. }
    done.
  - intros other Hne. by rewrite lookup_insert_ne.
Qed.

Lemma putSession_status_witness :
  let closed :=
    {| userId := "u1"; status := completed; messages := [];
       context := {| emotionalState := calm; urgencyLevel := low |};
       aiInsights := {| primaryConcern := None; riskLevel := low |} |} in
  let store : gmap string Chat.t := {[ "chat_1" := closed ]} in
  findOne store "chat_1" "u1" = None ∧
  ∃ chat',
    findOne (putSession store [] "chat_1" "u1" active).2 "chat_1" "u1" = Some chat' ∧
    status chat' = active.
Proof.
  intros closed store. split; [reflexivity|].
  destruct (putSession_status store "chat_1" "u1" active closed)
    as (chat' & _ & Hstatus & _ & _ & _ & _ & Hfind & _); [by vm_compute|].
  by exists chat'.
Defined.

(** X18.  A user who does not own a session cannot read it, change it,
    delete it or post to it: each of the four routes answers 404 and
    leaves the store as it is. *)
Theorem session_owner_only w (store : gmap string Chat.t)
    sessionId other chat newStatus content userContext log :
  store !! sessionId = Some chat → userId chat ≠ other →
  getSession store sessionId other = SessionRoutes.NotFound ∧
  putSession store [] sessionId other newStatus = (SessionRoutes.NotFound, store) ∧
  deleteSession store sessionId other = (SessionRoutes.NotFound, store) ∧
  postMessage w store [] sessionId other content userContext log
    = (ChatRoute.NotFound, store, log).
Proof.
  intros Hstore Hne.
  assert (owned store sessionId other = None) as Hnot.
  { unfold owned. rewrite Hstore. by rewrite (proj2 (String.eqb_neq _ _)). }
  unfold getSession, putSession, deleteSession, postMessage.
  by rewrite findOne_owned, Hnot.
Qed.

Lemma session_owner_only_witness :
  let store : gmap string Chat.t := {[ "chat_1" := started "u1" ]} in
  deleteSession store "chat_1" "u2" = (SessionRoutes.NotFound, store).
Proof.
  intros store.
  apply (session_owner_only (AIService.answering "x") store "chat_1" "u2"
           (started "u1") active "hi" AIService.noContext []); by vm_compute.
Defined.

(** X19.  When its owner deletes a session the answer is 200 and the
    session is gone: reading it, changing it, deleting it again and
    posting to it all answer 404 afterwards, for every user, and every
    other session is kept as it was. *)
Theorem deleteSession_removes w (store : gmap string Chat.t)
    sessionId owner chat anyone newStatus content userContext log :
  owned store sessionId owner = Some chat →
  let out := deleteSession store sessionId owner in
  out.1 = Deleted ∧
  getSession out.2 sessionId anyone = SessionRoutes.NotFound ∧
  putSession out.2 [] sessionId anyone newStatus = (SessionRoutes.NotFound, out.2) ∧
  deleteSession out.2 sessionId anyone = (SessionRoutes.NotFound, out.2) ∧
  postMessage w out.2 [] sessionId anyone content userContext log
    = (ChatRoute.NotFound, out.2, log) ∧
  (∀ other, other ≠ sessionId → out.2 !! other = store !! other).
Proof.
  intros Howned. cbv zeta.
  assert (deleteSession store sessionId owner = (Deleted, delete sessionId store))
    as -> by (unfold deleteSession; by rewrite Howned).
  cbn [fst snd].
  assert (owned (delete sessionId store) sessionId anyone = None) as Hgone.
  { unfold owned. by rewrite lookup_delete_eq. }
  unfold getSession, putSession, deleteSession, postMessage.
  rewrite findOne_owned, Hgone. repeat split; try done.
  intros other Hne. by rewrite lookup_delete_ne.
Qed.

Lemma deleteSession_removes_witness :
  let store : gmap string Chat.t := {[ "chat_1" := started "u1" ]} in
  getSession (deleteSession store "chat_1" "u1").2 "chat_1" "u1"
    = SessionRoutes.NotFound.
Proof.
  intros store.
  apply (deleteSession_removes (AIService.answering "x") store "chat_1" "u1"
           (started "u1") "u1" active "hi" AIService.noContext []).
  by vm_compute.
Defined.

(** X20.  The text of a message that is not the user's has no effect on
    the urgency or the emotional state: only user messages are scanned. *)
Theorem other_roles_not_scanned r text text' chat :
  r ≠ user →
  context (addMessage r text chat) = context (addMessage r text' chat).
Proof.
  intros Hr. unfold addMessage.
  rewrite !ChatFacts.updateContext_cases by (cbn; by destruct (messages chat)).
  assert (∀ t, lastUserMessage (push r t chat)
               = last (List.filter (λ msg, isUser (role msg))
                         (JS.lastN 4 (messages chat)))) as Hlast.
  { intros t. unfold lastUserMessage, push. cbn [messages].
    rewrite ChatFacts.lastN_snoc, List.filter_app. cbn [List.filter role].
    destruct r; [done| |]; cbn [isUser]; by rewrite app_nil_r. }
  by rewrite !Hlast.
Qed.

Lemma other_roles_not_scanned_witness :
  context (addMessage assistant "This is an emergency, call for help"
             (started "u1"))
  = context (addMessage assistant "Drink water" (started "u1")).
Proof. by apply other_roles_not_scanned. Defined.

End SessionFacts.
